(** * madaWM: a minimal tiling window manager for X11

    Shallow embedding of the two variants of the window manager that the
    repository carries:

    - [MadaWM]: [src/madawm.c] (three workspaces, one client list per
      workspace);
    - [Readme]: the program embedded in [src/README.md] (two workspaces, one
      client list whose nodes carry their workspace, borders and input focus).

    The X server is modelled by the record [Display]: the answers it gives to
    the queries the programs make (class hints, protocol lists, input focus)
    and the effect of the requests they issue (kept in issue order in
    [requests]).  C [int]s are integers of [Z]: the counters are list
    lengths, and the products and differences of [arrange] stay between 0
    and the screen width.  The only division is [screen_w / count], written
    with [Z.quot] as C truncates.  Arguments passed to [unsigned int]
    parameters are reduced modulo 2^32.  [malloc] is taken to succeed and
    [free]/[XFree] are not modelled. *)

From Stdlib Require Import ZArith List String Ascii Bool Lia Permutation.
Import ListNotations.
Open Scope Z_scope.

(** ** Xlib vocabulary *)

Module X11.

Definition Window := Z.
Definition Atom := Z.
Definition KeySym := Z.

(** [None] of X.h (the name is taken by [option]). *)
Definition XNone : Window := 0.

Definition ShiftMask : Z := 1.
Definition LockMask : Z := 2.
Definition Mod2Mask : Z := 16.
Definition Mod4Mask : Z := 64.

Definition EnterWindowMask : Z := Z.shiftl 1 4.
Definition StructureNotifyMask : Z := Z.shiftl 1 17.
Definition FocusChangeMask : Z := Z.shiftl 1 21.
Definition PropertyChangeMask : Z := Z.shiftl 1 22.

Definition XK_Return : KeySym := 0xff0d.
Definition XK_1 : KeySym := 0x31.
Definition XK_2 : KeySym := 0x32.
Definition XK_3 : KeySym := 0x33.
Definition XK_b : KeySym := 0x62.
Definition XK_c : KeySym := 0x63.
Definition XK_h : KeySym := 0x68.
Definition XK_l : KeySym := 0x6c.
Definition XK_q : KeySym := 0x71.

(** Conversion of an argument to an [unsigned int] parameter (the width and
    height of [XMoveResizeWindow], the value mask of [XConfigureWindow]). *)
Definition to_uint (z : Z) : Z := z mod 2 ^ 32.

Record XClassHint := {
  res_name : option string;
  res_class : option string
}.

Record XConfigureRequestEvent := {
  cr_window : Window;
  cr_x : Z; cr_y : Z; cr_width : Z; cr_height : Z;
  cr_border_width : Z;
  cr_above : Window;
  cr_detail : Z;
  cr_value_mask : Z
}.

Inductive XEvent :=
| MapRequest (window : Window)
| UnmapNotify (window : Window) (send_event : bool)
| DestroyNotify (window : Window)
| ConfigureRequest (ev : XConfigureRequestEvent)
| EnterNotify (window : Window)
| KeyPress (keysym : KeySym) (state : Z)
| OtherEvent.

(** What the programs ask of the outside world, in the order they ask. *)
Inductive XRequest :=
| XMoveResizeWindow (w : Window) (x y : Z) (width height : Z)
| XMapWindow (w : Window)
| XMapRaised (w : Window)
| XUnmapWindow (w : Window)
| XRaiseWindow (w : Window)
| XSetInputFocus (w : Window)
| XSetWindowBorder (w : Window) (color : Z)
| XSetWindowBorderWidth (w : Window) (width : Z)
| XSelectInput (w : Window) (mask : Z)
| XKillClient (w : Window)
| XSendEvent (w : Window) (message_type : Atom) (data0 : Z)
| XConfigureWindow (w : Window) (value_mask : Z)
    (x y width height border_width : Z) (sibling : Window) (stack_mode : Z)
| XSync
| XFlush
| Spawn (cmd : string).

Record Display := {
  class_hint : Window -> option XClassHint;   (* XGetClassHint *)
  protocols : Window -> option (list Atom);   (* XGetWMProtocols *)
  input_focus : Window;                       (* XGetInputFocus *)
  mapped : Window -> bool;
  requests : list XRequest
}.

Definition log (r : XRequest) (d : Display) : Display :=
  {| class_hint := class_hint d; protocols := protocols d;
     input_focus := input_focus d; mapped := mapped d;
     requests := requests d ++ [r] |}.

Definition set_mapped (w : Window) (b : bool) (d : Display) : Display :=
  {| class_hint := class_hint d; protocols := protocols d;
     input_focus := input_focus d;
     mapped := fun x => if x =? w then b else mapped d x;
     requests := requests d |}.

Definition set_input_focus (w : Window) (d : Display) : Display :=
  {| class_hint := class_hint d; protocols := protocols d;
     input_focus := w; mapped := mapped d;
     requests := requests d |}.

(** The server carries out a request: mapping and unmapping change the
    window's mapped state, [XSetInputFocus] moves the input focus, every
    request is recorded. *)
Definition issue (r : XRequest) (d : Display) : Display :=
  let d' :=
    match r with
    | XMapWindow w | XMapRaised w => set_mapped w true d
    | XUnmapWindow w => set_mapped w false d
    | XSetInputFocus w => set_input_focus w d
    | _ => d
    end in
  log r d'.

(** *** strings.h *)

Definition tolower (c : ascii) : ascii :=
  let n := N_of_ascii c in
  if ((65 <=? n) && (n <=? 90))%N then ascii_of_N (n + 32) else c.

Definition uchar (c : ascii) : Z := Z.of_N (N_of_ascii c).

Fixpoint strcasecmp (a b : string) : Z :=
  match a, b with
  | EmptyString, EmptyString => 0
  | EmptyString, String d _ => 0 - uchar (tolower d)
  | String c _, EmptyString => uchar (tolower c)
  | String c a', String d b' =>
      if uchar (tolower c) =? uchar (tolower d)
      then strcasecmp a' b'
      else uchar (tolower c) - uchar (tolower d)
  end.

(** *** Results of code that may read through a null pointer *)

Inductive result (A : Type) :=
| Ret (a : A)
| NullDeref.
Arguments Ret {A} a.
Arguments NullDeref {A}.

Definition bind {A B} (r : result A) (k : A -> result B) : result B :=
  match r with
  | Ret a => k a
  | NullDeref => NullDeref
  end.

Notation "x <- r ;; k" := (bind r (fun x => k))
  (at level 61, r at next level, right associativity).

(** [strcasecmp] applied to a [char *] that may be [NULL]. *)
Definition strcasecmp_ptr (s : option string) (p : string) : result Z :=
  match s with
  | Some s => Ret (strcasecmp s p)
  | None => NullDeref
  end.

(** C's short-circuit [a || b] and [a && b]. *)
Definition lor_c (a b : result bool) : result bool :=
  x <- a ;; if x then Ret true else b.
Definition land_c (a b : result bool) : result bool :=
  x <- a ;; if x then b else Ret false.

Definition is_set {A} (p : option A) : bool :=
  match p with Some _ => true | None => false end.

Definition is_focus (r : XRequest) : bool :=
  match r with
  | XSetInputFocus _ => true
  | _ => false
  end.

Definition is_move (r : XRequest) : bool :=
  match r with
  | XMoveResizeWindow _ _ _ _ _ => true
  | _ => false
  end.

End X11.

(** ** src/madawm.c *)

Module MadaWM.
Import X11.

Definition WORKSPACES : Z := 3.

(** The globals of the program.  [ws] is the array [Client *ws[WORKSPACES]];
    a [Client] list is the list of its [w] fields.  [TERMINAL] is what
    [getenv("TERMINAL")] returns. *)
Record State := {
  dpy : Display;
  screen_w : Z;
  screen_h : Z;
  ws : list (list Window);
  cur_ws : Z;
  running : bool;
  TERMINAL : option string
}.

Definition with_dpy (d : Display) (s : State) : State :=
  {| dpy := d; screen_w := screen_w s; screen_h := screen_h s; ws := ws s;
     cur_ws := cur_ws s; running := running s; TERMINAL := TERMINAL s |}.

Definition with_ws (l : list (list Window)) (s : State) : State :=
  {| dpy := dpy s; screen_w := screen_w s; screen_h := screen_h s; ws := l;
     cur_ws := cur_ws s; running := running s; TERMINAL := TERMINAL s |}.

Definition with_cur_ws (i : Z) (s : State) : State :=
  {| dpy := dpy s; screen_w := screen_w s; screen_h := screen_h s; ws := ws s;
     cur_ws := i; running := running s; TERMINAL := TERMINAL s |}.

Definition with_running (b : bool) (s : State) : State :=
  {| dpy := dpy s; screen_w := screen_w s; screen_h := screen_h s; ws := ws s;
     cur_ws := cur_ws s; running := b; TERMINAL := TERMINAL s |}.

Definition X (r : XRequest) (s : State) : State := with_dpy (issue r (dpy s)) s.

(** [ws[i]] and [ws[i] = l].  The program only indexes with [cur_ws], which
    stays inside [0, WORKSPACES). *)
Definition ws_at (s : State) (i : Z) : list Window :=
  nth (Z.to_nat i) (ws s) [].

Fixpoint store {A} (n : nat) (x : A) (l : list A) : list A :=
  match l, n with
  | [], _ => []
  | _ :: t, O => x :: t
  | h :: t, S n' => h :: store n' x t
  end.

Definition set_ws_at (i : Z) (l : list Window) (s : State) : State :=
  with_ws (store (Z.to_nat i) l (ws s)) s.

Definition allowed_classes : list string :=
  ["XTerm"; "xterm"; "Terminal"; "URxvt"; "urxvt"; "Firefox"; "firefox";
   "kitty"; "Kitty"]%string.

Definition add_client (w : Window) (s : State) : State :=
  set_ws_at (cur_ws s) (w :: ws_at s (cur_ws s)) s.

(** The walk of [remove_client_from_ws] along the [next] pointers: the first
    node whose [w] is the window is unlinked. *)
Fixpoint unlink (w : Window) (l : list Window) : list Window :=
  match l with
  | [] => []
  | c :: rest => if c =? w then rest else c :: unlink w rest
  end.

Definition remove_client_from_ws (w : Window) (wsidx : Z) (s : State) : State :=
  set_ws_at wsidx (unlink w (ws_at s wsidx)) s.

(** The [for] loop of [allowed_window]; it runs only when [res_class] is set,
    and reads [res_name] without testing it. *)
Fixpoint allowed_loop (ch : XClassHint) (ps : list string) : result bool :=
  match ps with
  | [] => Ret false
  | p :: ps' =>
      hit <- lor_c (c <- strcasecmp_ptr (res_class ch) p ;; Ret (c =? 0))
                   (c <- strcasecmp_ptr (res_name ch) p ;; Ret (c =? 0)) ;;
      if hit then Ret true else allowed_loop ch ps'
  end.

Definition allowed_window (d : Display) (w : Window) : result Z :=
  match class_hint d w with
  | Some ch =>
      if is_set (res_class ch)
      then hit <- allowed_loop ch allowed_classes ;;
           Ret (if hit then 1 else 0)
      else Ret 0
  | None => Ret 0
  end.

Fixpoint arrange_loop (cs : list Window) (i w : Z) (s : State) : State :=
  match cs with
  | [] => s
  | c :: rest =>
      let s1 := X (XMoveResizeWindow c (i * w) 0 (to_uint w)
                     (to_uint (screen_h s))) s in
      let s2 := X (XMapRaised c) s1 in
      arrange_loop rest (i + 1) w s2
  end.

Definition arrange (s : State) : State :=
  let count := Z.of_nat (List.length (ws_at s (cur_ws s))) in
  if count =? 0 then s
  else
    let w := Z.quot (screen_w s) count in
    X XFlush (arrange_loop (ws_at s (cur_ws s)) 0 w s).

Definition focus_next (s : State) : State :=
  match ws_at s (cur_ws s) with
  | [] => s
  | first :: _ =>
      arrange (add_client first (remove_client_from_ws first (cur_ws s) s))
  end.

(** The [while (cur->next)] walk of [focus_prev]: the nodes before the last
    one, and the last one. *)
Fixpoint walk_to_last (cur : Window) (rest : list Window)
  : list Window * Window :=
  match rest with
  | [] => ([], cur)
  | n :: rest' =>
      let (before, l) := walk_to_last n rest' in (cur :: before, l)
  end.

Definition focus_prev (s : State) : State :=
  match ws_at s (cur_ws s) with
  | [] => s
  | [_] => s
  | c :: rest =>
      let (before, l) := walk_to_last c rest in
      arrange (set_ws_at (cur_ws s) (l :: before) s)
  end.

Definition change_ws (idx : Z) (s : State) : State :=
  if (idx <? 0) || (idx >=? WORKSPACES) then s
  else
    let s1 := fold_left (fun st c => X (XUnmapWindow c) st)
                        (ws_at s (cur_ws s)) s in
    arrange (with_cur_ws idx s1).

Definition spawn_cmd (cmd : string) (s : State) : State := X (Spawn cmd) s.

Definition handle_maprequest (w : Window) (s : State) : result State :=
  ok <- allowed_window (dpy s) w ;;
  if ok =? 0 then Ret (X (XKillClient w) s)
  else
    let s1 := add_client w s in
    let s2 := X (XSelectInput w (Z.lor StructureNotifyMask PropertyChangeMask))
                s1 in
    Ret (arrange s2).

Definition handle_unmap (w : Window) (s : State) : State :=
  arrange (remove_client_from_ws w (cur_ws s) s).

Definition handle_destroy (w : Window) (s : State) : State :=
  arrange (remove_client_from_ws w (cur_ws s) s).

Definition handle_configure_request (ev : XConfigureRequestEvent) (s : State)
  : State :=
  X (XConfigureWindow (cr_window ev) (to_uint (cr_value_mask ev))
       (cr_x ev) (cr_y ev) (cr_width ev) (cr_height ev)
       (cr_border_width ev) (cr_above ev) (cr_detail ev)) s.

(** The [switch] of [run]. *)
Definition dispatch (e : XEvent) (s : State) : result State :=
  match e with
  | MapRequest w => handle_maprequest w s
  | UnmapNotify w _ => Ret (handle_unmap w s)
  | DestroyNotify w => Ret (handle_destroy w s)
  | ConfigureRequest ev => Ret (handle_configure_request ev s)
  | KeyPress k _ =>
      if k =? XK_Return then
        Ret (spawn_cmd (match TERMINAL s with
                        | Some term => term
                        | None => "kitty"%string
                        end) s)
      else if k =? XK_b then Ret (spawn_cmd "firefox"%string s)
      else if k =? XK_1 then Ret (change_ws 0 s)
      else if k =? XK_2 then Ret (change_ws 1 s)
      else if k =? XK_3 then Ret (change_ws 2 s)
      else if k =? XK_q then Ret (with_running false s)
      else if k =? XK_h then Ret (focus_prev s)
      else if k =? XK_l then Ret (focus_next s)
      else Ret s
  | _ => Ret s
  end.

(** The loop of [run] over the events the server delivers. *)
Fixpoint run (evs : list XEvent) (s : State) : result State :=
  match evs with
  | [] => Ret s
  | e :: evs' =>
      if running s then s' <- dispatch e s ;; run evs' s' else Ret s
  end.

(** The state [setup] leaves: no client, workspace 0. *)
Definition initial (d : Display) (w h : Z) (term : option string) : State :=
  {| dpy := d; screen_w := w; screen_h := h; ws := [[]; []; []];
     cur_ws := 0; running := true; TERMINAL := term |}.

End MadaWM.

(** ** The program embedded in src/README.md *)

Module Readme.
Import X11.

Definition WORKSPACES : Z := 2.
Definition BORDER_WIDTH : Z := 2.
Definition BORDER_FOCUS : Z := 0x4A90D9.
Definition BORDER_UNFOCUS : Z := 0x333333.

Record Client := {
  w : Window;
  workspace : Z
}.

(** The globals of the program; [clients] is the list headed by
    [Client *clients], in [next] order. *)
Record State := {
  dpy : Display;
  root : Window;
  screen_w : Z;
  screen_h : Z;
  clients : list Client;
  cur_ws : Z;
  running : bool;
  wm_protocols : Atom;
  wm_delete_window : Atom;
  wm_take_focus : Atom;
  TERMINAL : option string
}.

Definition with_dpy (d : Display) (s : State) : State :=
  {| dpy := d; root := root s; screen_w := screen_w s; screen_h := screen_h s;
     clients := clients s; cur_ws := cur_ws s; running := running s;
     wm_protocols := wm_protocols s; wm_delete_window := wm_delete_window s;
     wm_take_focus := wm_take_focus s; TERMINAL := TERMINAL s |}.

Definition with_clients (l : list Client) (s : State) : State :=
  {| dpy := dpy s; root := root s; screen_w := screen_w s;
     screen_h := screen_h s;
     clients := l; cur_ws := cur_ws s; running := running s;
     wm_protocols := wm_protocols s; wm_delete_window := wm_delete_window s;
     wm_take_focus := wm_take_focus s; TERMINAL := TERMINAL s |}.

Definition with_cur_ws (i : Z) (s : State) : State :=
  {| dpy := dpy s; root := root s; screen_w := screen_w s;
     screen_h := screen_h s;
     clients := clients s; cur_ws := i; running := running s;
     wm_protocols := wm_protocols s; wm_delete_window := wm_delete_window s;
     wm_take_focus := wm_take_focus s; TERMINAL := TERMINAL s |}.

Definition with_running (b : bool) (s : State) : State :=
  {| dpy := dpy s; root := root s; screen_w := screen_w s;
     screen_h := screen_h s;
     clients := clients s; cur_ws := cur_ws s; running := b;
     wm_protocols := wm_protocols s; wm_delete_window := wm_delete_window s;
     wm_take_focus := wm_take_focus s; TERMINAL := TERMINAL s |}.

Definition X (r : XRequest) (s : State) : State := with_dpy (issue r (dpy s)) s.

Definition terminal_classes : list string :=
  ["xterm"; "XTerm"; "URxvt"; "urxvt"; "Terminal"; "kitty"; "Kitty";
   "Alacritty"; "alacritty"; "St"; "st"]%string.

Definition browser_classes : list string :=
  ["firefox"; "Firefox"; "Chromium"; "chromium"; "Google-chrome";
   "google-chrome"; "Brave-browser"]%string.

(** The [for] loop of [match_class]: each hint is tested before it is read. *)
Fixpoint match_loop (ch : XClassHint) (ps : list string) : result Z :=
  match ps with
  | [] => Ret 0
  | p :: ps' =>
      hit <- lor_c
               (land_c (Ret (is_set (res_class ch)))
                       (c <- strcasecmp_ptr (res_class ch) p ;; Ret (c =? 0)))
               (land_c (Ret (is_set (res_name ch)))
                       (c <- strcasecmp_ptr (res_name ch) p ;; Ret (c =? 0))) ;;
      if hit then Ret 1 else match_loop ch ps'
  end.

Definition match_class (d : Display) (w0 : Window) (classes : list string)
  : result Z :=
  match class_hint d w0 with
  | None => Ret 0
  | Some ch =>
      if is_set (res_class ch) || is_set (res_name ch)
      then match_loop ch classes
      else Ret 0
  end.

Definition get_window_workspace (d : Display) (w0 : Window) : result Z :=
  t <- match_class d w0 terminal_classes ;;
  if negb (t =? 0) then Ret 0
  else
    b <- match_class d w0 browser_classes ;;
    if negb (b =? 0) then Ret 1 else Ret (-1).

Fixpoint find_client (w0 : Window) (cs : list Client) : option Client :=
  match cs with
  | [] => None
  | c :: rest => if w c =? w0 then Some c else find_client w0 rest
  end.

Definition add_client (w0 : Window) (ws : Z) (s : State) : State :=
  let s1 := with_clients ({| w := w0; workspace := ws |} :: clients s) s in
  let s2 := X (XSetWindowBorderWidth w0 BORDER_WIDTH) s1 in
  X (XSelectInput w0
       (Z.lor (Z.lor EnterWindowMask FocusChangeMask) PropertyChangeMask)) s2.

(** The walk of [remove_client]: the first node for the window is unlinked. *)
Fixpoint unlink (w0 : Window) (cs : list Client) : list Client :=
  match cs with
  | [] => []
  | c :: rest => if w c =? w0 then rest else c :: unlink w0 rest
  end.

Definition remove_client (w0 : Window) (s : State) : State :=
  with_clients (unlink w0 (clients s)) s.

Definition set_border (w0 : Window) (color : Z) (s : State) : State :=
  X (XSetWindowBorder w0 color) s.

Definition supports_protocol (d : Display) (w0 : Window) (protocol : Atom)
  : bool :=
  match protocols d w0 with
  | Some l => existsb (fun p => p =? protocol) l
  | None => false
  end.

Definition set_focus (w0 : Window) (s : State) : State :=
  if w0 =? XNone then X (XSetInputFocus (root s)) s
  else
    let s1 := fold_left
                (fun st c =>
                   if workspace c =? cur_ws st
                   then set_border (w c) BORDER_UNFOCUS st else st)
                (clients s) s in
    let s2 := set_border w0 BORDER_FOCUS s1 in
    let s3 := X (XSetInputFocus w0) s2 in
    let s4 := X (XRaiseWindow w0) s3 in
    if supports_protocol (dpy s4) w0 (wm_take_focus s4)
    then X (XSendEvent w0 (wm_protocols s4) (wm_take_focus s4)) s4
    else s4.

(** [count] of [arrange]. *)
Definition count_cur (s : State) : Z :=
  Z.of_nat (List.length (filter (fun c => workspace c =? cur_ws s) (clients s))).

(** The tiling loop of [arrange], with its locals [i] and [focused]. *)
Fixpoint arrange_loop (cs : list Client) (count tile_w i : Z)
    (focused : option Client) (s : State) : option Client * State :=
  match cs with
  | [] => (focused, s)
  | c :: rest =>
      if workspace c =? cur_ws s then
        let x := i * tile_w in
        let wd := if i =? count - 1 then screen_w s - x else tile_w in
        let s1 := X (XMoveResizeWindow (w c) x 0
                       (to_uint (wd - 2 * BORDER_WIDTH))
                       (to_uint (screen_h s - 2 * BORDER_WIDTH))) s in
        let s2 := X (XMapWindow (w c)) s1 in
        arrange_loop rest count tile_w (i + 1)
                     (if i =? 0 then Some c else focused) s2
      else
        arrange_loop rest count tile_w i focused (X (XUnmapWindow (w c)) s)
  end.

Definition arrange (s : State) : State :=
  let count := count_cur s in
  if count =? 0 then set_focus XNone s
  else
    let tile_w := Z.quot (screen_w s) count in
    let (focused, s1) := arrange_loop (clients s) count tile_w 0 None s in
    let s2 := match focused with
              | Some c => set_focus (w c) s1
              | None => s1
              end in
    X XSync s2.

(** The loop of [focus_next]; it returns [first] and [next]. *)
Fixpoint focus_next_loop (cs : list Client) (ws focused_w : Z)
    (cur first : option Client) : option Client * option Client :=
  match cs with
  | [] => (first, None)
  | c :: rest =>
      if negb (workspace c =? ws) then focus_next_loop rest ws focused_w cur first
      else
        let first' := match first with None => Some c | Some _ => first end in
        match cur with
        | Some _ => (first', Some c)
        | None =>
            focus_next_loop rest ws focused_w
              (if w c =? focused_w then Some c else None) first'
        end
  end.

Definition focus_next (s : State) : State :=
  let focused_w := input_focus (dpy s) in
  match focus_next_loop (clients s) (cur_ws s) focused_w None None with
  | (_, Some next) => set_focus (w next) s
  | (Some first, None) => set_focus (w first) s
  | (None, None) => s
  end.

(** The loop of [focus_prev]; it returns [prev] and [last]. *)
Fixpoint focus_prev_loop (cs : list Client) (ws focused_w : Z)
    (cur prev last : option Client) : option Client * option Client :=
  match cs with
  | [] => (prev, last)
  | c :: rest =>
      if negb (workspace c =? ws)
      then focus_prev_loop rest ws focused_w cur prev last
      else if w c =? focused_w
      then focus_prev_loop rest ws focused_w (Some c) prev (Some c)
      else focus_prev_loop rest ws focused_w cur
             (if is_set cur then prev else Some c) (Some c)
  end.

Definition focus_prev (s : State) : State :=
  let focused_w := input_focus (dpy s) in
  match focus_prev_loop (clients s) (cur_ws s) focused_w None None None with
  | (Some prev, _) => set_focus (w prev) s
  | (None, Some last) => set_focus (w last) s
  | (None, None) => s
  end.

Definition change_ws (ws : Z) (s : State) : State :=
  if (ws <? 0) || (ws >=? WORKSPACES) || (ws =? cur_ws s) then s
  else arrange (with_cur_ws ws s).

Definition kill_focused (s : State) : State :=
  let focused_w := input_focus (dpy s) in
  if (focused_w =? XNone) || (focused_w =? root s) then s
  else if supports_protocol (dpy s) focused_w (wm_delete_window s)
  then X (XSendEvent focused_w (wm_protocols s) (wm_delete_window s)) s
  else X (XKillClient focused_w) s.

Definition spawn_cmd (cmd : string) (s : State) : State := X (Spawn cmd) s.

Definition handle_maprequest (w0 : Window) (s : State) : result State :=
  if is_set (find_client w0 (clients s)) then Ret s
  else
    ws <- get_window_workspace (dpy s) w0 ;;
    if ws <? 0 then Ret (X (XKillClient w0) s)
    else
      let s1 := add_client w0 ws s in
      if negb (ws =? cur_ws s1) then Ret (change_ws ws s1)
      else Ret (arrange s1).

Definition handle_unmap (w0 : Window) (send_event : bool) (s : State) : State :=
  if send_event then arrange (remove_client w0 s) else s.

Definition handle_destroy (w0 : Window) (s : State) : State :=
  arrange (remove_client w0 s).

Definition handle_configure_request (ev : XConfigureRequestEvent) (s : State)
  : State :=
  X (XConfigureWindow (cr_window ev) (to_uint (cr_value_mask ev))
       (cr_x ev) (cr_y ev) (cr_width ev) (cr_height ev)
       BORDER_WIDTH (cr_above ev) (cr_detail ev)) s.

Definition handle_enternotify (w0 : Window) (s : State) : State :=
  match find_client w0 (clients s) with
  | Some c => if workspace c =? cur_ws s then set_focus (w c) s else s
  | None => s
  end.

(** The [switch] of [run]. *)
Definition dispatch (e : XEvent) (s : State) : result State :=
  match e with
  | MapRequest w0 => handle_maprequest w0 s
  | UnmapNotify w0 send_event => Ret (handle_unmap w0 send_event s)
  | DestroyNotify w0 => Ret (handle_destroy w0 s)
  | ConfigureRequest ev => Ret (handle_configure_request ev s)
  | EnterNotify w0 => Ret (handle_enternotify w0 s)
  | KeyPress k kstate =>
      let state := Z.land kstate (Z.lnot (Z.lor LockMask Mod2Mask)) in
      if state =? Mod4Mask then
        if k =? XK_Return then
          Ret (spawn_cmd (match TERMINAL s with
                          | Some term => term
                          | None => "kitty"%string
                          end) s)
        else if k =? XK_b then Ret (spawn_cmd "firefox"%string s)
        else if k =? XK_1 then Ret (change_ws 0 s)
        else if k =? XK_2 then Ret (change_ws 1 s)
        else if k =? XK_h then Ret (focus_prev s)
        else if k =? XK_l then Ret (focus_next s)
        else Ret s
      else if state =? Z.lor Mod4Mask ShiftMask then
        if k =? XK_c then Ret (kill_focused s)
        else if k =? XK_q then Ret (with_running false s)
        else Ret s
      else Ret s
  | OtherEvent => Ret s
  end.

(** The loop of [run] over the events the server delivers. *)
Fixpoint run (evs : list XEvent) (s : State) : result State :=
  match evs with
  | [] => Ret s
  | e :: evs' =>
      if running s then s' <- dispatch e s ;; run evs' s' else Ret s
  end.

(** The state [setup] leaves: no client, workspace 0. *)
Definition initial (d : Display) (r : Window) (sw sh : Z)
    (a_protocols a_delete a_take_focus : Atom) (term : option string) : State :=
  {| dpy := d; root := r; screen_w := sw; screen_h := sh; clients := [];
     cur_ws := 0; running := true; wm_protocols := a_protocols;
     wm_delete_window := a_delete; wm_take_focus := a_take_focus;
     TERMINAL := term |}.

(** [members_of]: the windows of a workspace, in list order. *)
Definition members (ws : Z) (cs : list Client) : list Window :=
  map w (filter (fun c => workspace c =? ws) cs).

End Readme.

(** ** Reachable states and registry invariants *)

Module ReadmeModel.
Import X11 Readme.

(** The server never delivers a map request for the null window. *)
Definition event_ok (e : XEvent) : Prop :=
  match e with
  | MapRequest w0 => w0 <> XNone
  | _ => True
  end.

(** States the program can be in: after [setup], after handling an event,
    and after anything the server or other clients do to the display between
    two events. *)
Inductive Reachable : State -> Prop :=
| reach_initial d r sw sh a1 a2 a3 term :
    Reachable (initial d r sw sh a1 a2 a3 term)
| reach_event s e s' :
    Reachable s -> event_ok e -> dispatch e s = Ret s' -> Reachable s'
| reach_server s d :
    Reachable s -> Reachable (with_dpy d s).

Definition handles (s : State) : list Window := map w (clients s).

(** Invariants 1 and 2 of the registry, and the current workspace index. *)
Record registry_ok (s : State) : Prop := {
  handles_once : NoDup (handles s);
  handles_real : ~ In XNone (handles s);
  workspaces_valid : forall c, In c (clients s) -> 0 <= workspace c < WORKSPACES;
  cur_ws_valid : 0 <= cur_ws s < WORKSPACES
}.

(** [t] differs from [s] in the display only. *)
Definition framed (s t : State) : Prop := t = with_dpy (dpy t) s.

(** The requests issued between [s] and [s']. *)
Definition issued (s s' : State) : list XRequest :=
  skipn (List.length (requests (dpy s))) (requests (dpy s')).

(** The window that holds the input focus once [arrange] has run in a state
    whose current workspace has the members [ms]. *)
Definition focus_target (r : Window) (ms : list Window) : Window :=
  match ms with
  | [] => r
  | h :: _ => h
  end.

(** The columns of the tiling as section 4.3 of the specification words
    them: [(x, width)] for column [i] of [n] on a screen [W] wide. *)
Definition spec_column (W n i : Z) : Z * Z :=
  let base := W / n in
  (i * base, if i <? n - 1 then base else W - base * (n - 1)).

Fixpoint spec_columns (W n : Z) (k : nat) (i : Z) : list (Z * Z) :=
  match k with
  | O => []
  | S k' => spec_column W n i :: spec_columns W n k' (i + 1)
  end.

(** Columns [(x, width)] that are laid side by side from [from] to [to]:
    each starts where the previous one ends, none has a negative width. *)
Fixpoint spans (from to : Z) (cols : list (Z * Z)) : Prop :=
  match cols with
  | [] => from = to
  | (x, wd) :: rest => x = from /\ 0 <= wd /\ spans (x + wd) to rest
  end.

(** The request that tiles window [c] into column [(x, wd)]. *)
Definition tile_request (sh : Z) (c : Window) (col : Z * Z) : XRequest :=
  XMoveResizeWindow c (fst col) 0
    (to_uint (snd col - 2 * BORDER_WIDTH)) (to_uint (sh - 2 * BORDER_WIDTH)).

(** The focused window is the head of the current workspace's sequence (the
    root window when the workspace is empty). *)
Definition head_focused (s : State) : Prop :=
  input_focus (dpy s) = focus_target (root s) (members (cur_ws s) (clients s)).

(** The element after the first occurrence of [fw] in [l], when there is
    one. *)
Fixpoint successor (fw : Window) (l : list Window) : option Window :=
  match l with
  | [] => None
  | c :: rest => if c =? fw then hd_error rest else successor fw rest
  end.

(** The window [focus_next] moves the focus to: the successor of the focused
    window in the current workspace, the first member when it has none. *)
Definition next_window (fw : Window) (l : list Window) : Window :=
  match successor fw l with
  | Some n => n
  | None => hd XNone l
  end.

(** The windows that hold the focus after 1, 2, ..., [k] calls of
    [focus_next]. *)
Definition visited (s : State) (k : nat) : list Window :=
  map (fun j => input_focus (dpy (Nat.iter j focus_next s))) (seq 1 k).

(** The state [run] ends in; the starting state when it faults. *)
Definition exec (evs : list XEvent) (s : State) : State :=
  match run evs s with
  | Ret s' => s'
  | NullDeref => s
  end.

(** The geometry requests issued so far. *)
Definition moves (s : State) : list XRequest :=
  filter is_move (requests (dpy s)).

(** The tiling requests for the windows [ms] over the columns [cols]. *)
Definition tiling (sh : Z) (ms : list Window) (cols : list (Z * Z))
  : list XRequest :=
  map (fun p => tile_request sh (fst p) (snd p)) (combine ms cols).

End ReadmeModel.

Module MadaWMModel.
Import X11 MadaWM.

(** The requests issued between [s] and [s']. *)
Definition issued (s s' : State) : list XRequest :=
  skipn (List.length (requests (dpy s))) (requests (dpy s')).

(** The state [run] ends in; the starting state when it faults. *)
Definition exec (evs : list XEvent) (s : State) : State :=
  match run evs s with
  | Ret s' => s'
  | NullDeref => s
  end.

(** [t] differs from [s] in the display only. *)
Definition framed (s t : State) : Prop := t = with_dpy (dpy t) s.

(** The server-side focus is the same in [s] and [t], and the requests
    added by [t] contain no [XSetInputFocus]. *)
Definition focus_untouched (s t : State) : Prop :=
  input_focus (dpy t) = input_focus (dpy s)
  /\ filter is_focus (requests (dpy t)) = filter is_focus (requests (dpy s)).

Definition moves (s : State) : list XRequest :=
  filter is_move (requests (dpy s)).

(** The geometry requests of [arrange] for the windows [cs], from column
    [i] on, with columns [w] wide. *)
Fixpoint equal_columns (sh w : Z) (cs : list Window) (i : Z) : list XRequest :=
  match cs with
  | [] => []
  | c :: rest =>
      XMoveResizeWindow c (i * w) 0 (to_uint w) (to_uint sh)
      :: equal_columns sh w rest (i + 1)
  end.

End MadaWMModel.

(** ** Concrete sessions *)

Module Session.
Import X11.

Definition PointerRoot : Window := 1.

Definition hint (name class : option string) : XClassHint :=
  {| res_name := name; res_class := class |}.

(** A display whose windows all carry the given class hint; nothing is
    mapped, the focus is [PointerRoot], nothing has been requested. *)
Definition display (h : option XClassHint) : Display :=
  {| class_hint := fun _ => h;
     protocols := fun _ => None;
     input_focus := PointerRoot;
     mapped := fun _ => false;
     requests := [] |}.

Definition kitty : option XClassHint :=
  Some (hint (Some "kitty"%string) (Some "kitty"%string)).



(** src/madawm.c started on a screen 1921 pixels wide. *)
Definition mada (h : option XClassHint) : MadaWM.State :=
  MadaWM.initial (display h) 1921 1080 None.

(** The README program started on the same screen; the root window is 50,
    the interned atoms are 300, 301 and 302. *)
Definition fixed (h : option XClassHint) : Readme.State :=
  Readme.initial (display h) 50 1921 1080 300 301 302 None.

Definition Super_l : XEvent := KeyPress XK_l Mod4Mask.
Definition Super_1 : XEvent := KeyPress XK_1 Mod4Mask.

(** src/madawm.c after one, two and three terminals have asked to be
    mapped. *)
Definition mada_one : MadaWM.State :=
  MadaWMModel.exec [MapRequest 101] (mada kitty).
Definition mada_two : MadaWM.State :=
  MadaWMModel.exec [MapRequest 101; MapRequest 102] (mada kitty).
Definition mada_three : MadaWM.State :=
  MadaWMModel.exec [MapRequest 101; MapRequest 102; MapRequest 103]
    (mada kitty).

(** [mada_one] when the client has unmapped window 101 itself and the
    notification has not been handled yet. *)
Definition mada_one_withdrawn : MadaWM.State :=
  MadaWM.with_dpy (set_mapped 101 false (MadaWM.dpy mada_one)) mada_one.

(** The README program after one, two and three terminals have asked to be
    mapped. *)
Definition fixed_one : Readme.State :=
  ReadmeModel.exec [MapRequest 101] (fixed kitty).
Definition fixed_two : Readme.State :=
  ReadmeModel.exec [MapRequest 101; MapRequest 102] (fixed kitty).
Definition fixed_three : Readme.State :=
  ReadmeModel.exec [MapRequest 101; MapRequest 102; MapRequest 103]
    (fixed kitty).

(** [fixed_two] after Super+l: the focus is on the second member. *)
Definition fixed_two_cycled : Readme.State :=
  ReadmeModel.exec [MapRequest 101; MapRequest 102; Super_l] (fixed kitty).

End Session.

(** ** Observations on the display and reachable states of src/madawm.c *)

Module ReadmeObs.
Import X11 Readme ReadmeModel.

(** The colour the window's border has after the requests [reqs]: that of
    the last [XSetWindowBorder] for it. *)
Definition border_step (w0 : Window) (acc : option Z) (r : XRequest)
  : option Z :=
  match r with
  | XSetWindowBorder x color => if x =? w0 then Some color else acc
  | _ => acc
  end.

Definition border_of (reqs : list XRequest) (w0 : Window) : option Z :=
  fold_left (border_step w0) reqs None.

(** [prev] of [focus_prev] over the windows of the current workspace: the
    last window seen before the focused one. *)
Fixpoint prev_from (fw : Window) (l : list Window) (prev : option Window)
  : option Window :=
  match l with
  | [] => prev
  | c :: rest => if c =? fw then prev else prev_from fw rest (Some c)
  end.

(** The window [focus_prev] moves the focus to. *)
Definition prev_window (fw : Window) (l : list Window) : Window :=
  match prev_from fw l None with
  | Some p => p
  | None => last l XNone
  end.

(** The string with its upper-case letters lowered. *)
Fixpoint lower (s : string) : string :=
  match s with
  | EmptyString => EmptyString
  | String c rest => String (tolower c) (lower rest)
  end.

(** A C string holds no NUL character. *)
Fixpoint nul_free (s : string) : Prop :=
  match s with
  | EmptyString => True
  | String c rest => c <> "000"%char /\ nul_free rest
  end.

(** The hints that are set are C strings. *)
Definition hints_nul_free (ch : XClassHint) : Prop :=
  (forall x, res_class ch = Some x -> nul_free x)
  /\ (forall x, res_name ch = Some x -> nul_free x).

(** One of the two hints is set and equals an entry of [classes] up to
    case. *)
Definition hint_matches (ch : XClassHint) (classes : list string) : Prop :=
  exists x p,
    (res_class ch = Some x \/ res_name ch = Some x)
    /\ In p classes /\ lower x = lower p.

End ReadmeObs.

Module MadaWMReach.
Import X11 MadaWM MadaWMModel.

(** States src/madawm.c can be in: after [setup], after handling an event,
    and after anything the server or other clients do to the display. *)
Inductive Reachable : State -> Prop :=
| reach_initial d sw sh term : Reachable (initial d sw sh term)
| reach_event s e s' : Reachable s -> dispatch e s = Ret s' -> Reachable s'
| reach_server s d : Reachable s -> Reachable (with_dpy d s).

(** The geometry request of column [k], [q] wide, for window [c]. *)
Definition column_request (sh q : Z) (p : nat * Window) : XRequest :=
  XMoveResizeWindow (snd p) (Z.of_nat (fst p) * q) 0 (to_uint q) (to_uint sh).

(** The list with its last node moved to the front. *)
Definition rotate (l : list Window) : list Window :=
  match l with
  | [] => []
  | _ => last l XNone :: removelast l
  end.

End MadaWMReach.

Module Xlib.
Import X11.


End Xlib.

Module Session2.
Import X11 Session.


(** The class hint of a Firefox window. *)
Definition firefox : option XClassHint :=
  Some (hint (Some "Navigator"%string) (Some "firefox"%string)).

(** An instance name in upper case and no class. *)
Definition shouting : XClassHint :=
  hint (Some "KITTY"%string) None.

(** The display [d] where window [w0] carries the hint [h]. *)
Definition with_hint (w0 : Window) (h : option XClassHint) (d : Display)
  : Display :=
  {| class_hint := fun x => if x =? w0 then h else class_hint d x;
     protocols := protocols d;
     input_focus := input_focus d;
     mapped := mapped d;
     requests := requests d |}.

(** [fixed_two] when a Firefox window 201 has been created. *)
Definition fixed_two_firefox : Readme.State :=
  Readme.with_dpy (with_hint 201 firefox (Readme.dpy fixed_two)) fixed_two.

(** [fixed_two] when a window 301 without class hint has been created. *)
Definition fixed_two_unhinted : Readme.State :=
  Readme.with_dpy (with_hint 301 None (Readme.dpy fixed_two)) fixed_two.

(** [fixed_two] after the pointer has given the focus to an unmanaged
    window 77. *)
Definition fixed_two_astray : Readme.State :=
  Readme.with_dpy (set_input_focus 77 (Readme.dpy fixed_two)) fixed_two.

(** src/madawm.c with [101] on workspace 0 and [103; 102] on workspace 1,
    which is current. *)
Definition mada_split : MadaWM.State :=
  MadaWMModel.exec
    [MapRequest 101; KeyPress XK_2 Mod4Mask; MapRequest 102; MapRequest 103]
    (mada kitty).

End Session2.

(** ** grab_keys *)

Module Grabs.
Import X11.

(** [XGrabKey(dpy, XKeysymToKeycode(dpy, keysym), modifiers, root, True,
    GrabModeAsync, GrabModeAsync)]: the key is named by its keysym. *)
Inductive GrabRequest :=
| XGrabKey (keysym : KeySym) (modifiers : Z).

(** [grab_keys] of src/madawm.c, in the order of its calls. *)
Definition mada_grab_keys : list GrabRequest :=
  let mod_ := Mod4Mask in
  [XGrabKey XK_Return mod_; XGrabKey XK_b mod_; XGrabKey XK_1 mod_;
   XGrabKey XK_2 mod_; XGrabKey XK_3 mod_; XGrabKey XK_q mod_;
   XGrabKey XK_h mod_; XGrabKey XK_l mod_].

(** [grab_keys] of the README program. *)
Definition readme_grab_keys : list GrabRequest :=
  let mod_ := Mod4Mask in
  [XGrabKey XK_Return mod_; XGrabKey XK_b mod_; XGrabKey XK_1 mod_;
   XGrabKey XK_2 mod_; XGrabKey XK_c (Z.lor mod_ ShiftMask);
   XGrabKey XK_q (Z.lor mod_ ShiftMask); XGrabKey XK_h mod_;
   XGrabKey XK_l mod_].

Definition grabbed_keysym (g : GrabRequest) : KeySym :=
  match g with XGrabKey k _ => k end.

End Grabs.

(** ** Facts about the README variant *)

Module ReadmeFacts.
Import X11 Readme ReadmeModel.

(** *** Requests touch the display only *)

Lemma with_dpy_dpy s : with_dpy (dpy s) s = s.
Proof. destruct s; reflexivity. Qed.

Lemma framed_refl s : framed s s.
Proof. unfold framed. now rewrite with_dpy_dpy. Qed.

Lemma framed_X s t r : framed s t -> framed s (X r t).
Proof. unfold framed, X. intros ->. reflexivity. Qed.

Lemma framed_trans s t u : framed s t -> framed t u -> framed s u.
Proof. unfold framed. intros -> ->. reflexivity. Qed.

Lemma framed_clients s t : framed s t -> clients t = clients s.
Proof. intros ->. reflexivity. Qed.

Lemma framed_cur_ws s t : framed s t -> cur_ws t = cur_ws s.
Proof. intros ->. reflexivity. Qed.

Lemma framed_root s t : framed s t -> root t = root s.
Proof. intros ->. reflexivity. Qed.

Lemma framed_screen_w s t : framed s t -> screen_w t = screen_w s.
Proof. intros ->. reflexivity. Qed.

Lemma framed_screen_h s t : framed s t -> screen_h t = screen_h s.
Proof. intros ->. reflexivity. Qed.

Create HintDb frame.
#[local] Hint Resolve framed_refl framed_X : frame.

Lemma unfocus_all_framed cs : forall s t,
  framed s t ->
  framed s (fold_left
              (fun st c =>
                 if workspace c =? cur_ws st
                 then set_border (w c) BORDER_UNFOCUS st else st) cs t).
Proof.
  induction cs as [|c cs IH]; intros s t Ht; cbn [fold_left]; [exact Ht|].
  apply IH. destruct (workspace c =? cur_ws t); [|exact Ht].
  unfold set_border. auto with frame.
Qed.

Lemma set_focus_framed w0 s : framed s (set_focus w0 s).
Proof.
  unfold set_focus. destruct (w0 =? XNone); [auto with frame|].
  cbv zeta.
  match goal with |- framed _ (if ?b then _ else _) => destruct b end;
    unfold set_border; repeat apply framed_X;
    apply unfocus_all_framed, framed_refl.
Qed.

Lemma arrange_loop_framed cs : forall count tile_w i focused s t,
  framed s t ->
  framed s (snd (arrange_loop cs count tile_w i focused t)).
Proof.
  induction cs as [|c cs IH]; intros count tile_w i focused s t Ht;
    cbn [arrange_loop]; [exact Ht|].
  destruct (workspace c =? cur_ws t); apply IH; auto with frame.
Qed.

Lemma arrange_framed s : framed s (arrange s).
Proof.
  unfold arrange. destruct (count_cur s =? 0); [apply set_focus_framed|].
  cbv zeta.
  pose proof (arrange_loop_framed (clients s) (count_cur s)
                (Z.quot (screen_w s) (count_cur s)) 0 None s s (framed_refl s))
    as Hl.
  destruct (arrange_loop _ _ _ _ _ _) as [focused s1]. cbn [snd] in Hl.
  apply framed_X. destruct focused as [c|]; [|exact Hl].
  eapply framed_trans; [exact Hl|apply set_focus_framed].
Qed.

Lemma arrange_clients s : clients (arrange s) = clients s.
Proof. apply framed_clients, arrange_framed. Qed.

Lemma arrange_cur_ws s : cur_ws (arrange s) = cur_ws s.
Proof. apply framed_cur_ws, arrange_framed. Qed.

Lemma focus_next_framed s : framed s (focus_next s).
Proof.
  unfold focus_next.
  destruct (focus_next_loop _ _ _ _ _) as [[f|] [n|]];
    auto using set_focus_framed, framed_refl.
Qed.

Lemma focus_prev_framed s : framed s (focus_prev s).
Proof.
  unfold focus_prev.
  destruct (focus_prev_loop _ _ _ _ _ _) as [[p|] [l|]];
    auto using set_focus_framed, framed_refl.
Qed.

Lemma kill_focused_framed s : framed s (kill_focused s).
Proof.
  unfold kill_focused.
  destruct (_ || _); [apply framed_refl|].
  destruct (supports_protocol _ _ _); auto with frame.
Qed.

Lemma handle_enternotify_framed w0 s : framed s (handle_enternotify w0 s).
Proof.
  unfold handle_enternotify. destruct (find_client _ _) as [c|];
    [|apply framed_refl].
  destruct (_ =? _); auto using set_focus_framed, framed_refl.
Qed.

(** *** The policy filter *)

Lemma match_loop_returns ch ps :
  match_loop ch ps = Ret 0 \/ match_loop ch ps = Ret 1.
Proof.
  induction ps as [|p ps IH]; cbn [match_loop]; [now left|].
  destruct ch as [[n|] [c|]]; cbn;
    repeat match goal with
           | |- context [if ?b then _ else _] => destruct b; cbn
           end; auto.
Qed.

Lemma match_class_returns d w0 classes :
  match_class d w0 classes = Ret 0 \/ match_class d w0 classes = Ret 1.
Proof.
  unfold match_class. destruct (class_hint d w0) as [ch|]; [|now left].
  destruct (_ || _); [apply match_loop_returns|now left].
Qed.

Lemma get_window_workspace_returns d w0 :
  exists ws, get_window_workspace d w0 = Ret ws /\ (ws = -1 \/ 0 <= ws < WORKSPACES).
Proof.
  unfold get_window_workspace, WORKSPACES.
  destruct (match_class_returns d w0 terminal_classes) as [-> | ->]; cbn.
  - destruct (match_class_returns d w0 browser_classes) as [-> | ->]; cbn;
      eexists; split; try reflexivity; lia.
  - eexists; split; [reflexivity|lia].
Qed.

(** *** The registry *)

Lemma find_client_none w0 cs :
  find_client w0 cs = None <-> ~ In w0 (map w cs).
Proof.
  induction cs as [|c cs IH]; cbn; [tauto|].
  destruct (Z.eqb_spec (w c) w0) as [E|E].
  - split; [discriminate|]. intros H. exfalso. apply H. now left.
  - rewrite IH. tauto.
Qed.

Lemma find_client_some w0 cs c :
  find_client w0 cs = Some c -> In c cs /\ w c = w0.
Proof.
  induction cs as [|c' cs IH]; cbn; [discriminate|].
  destruct (Z.eqb_spec (w c') w0) as [E|E].
  - intros [= <-]. auto.
  - intros H. destruct (IH H). auto.
Qed.

Lemma unlink_absent w0 cs : ~ In w0 (map w cs) -> unlink w0 cs = cs.
Proof.
  induction cs as [|c cs IH]; cbn; [reflexivity|].
  intros H. destruct (Z.eqb_spec (w c) w0) as [E|E]; [tauto|].
  f_equal. apply IH. tauto.
Qed.

Lemma unlink_subset w0 cs c : In c (unlink w0 cs) -> In c cs.
Proof.
  induction cs as [|c' cs IH]; cbn; [tauto|].
  destruct (w c' =? w0); cbn; intuition.
Qed.

Lemma unlink_handles_subset w0 cs x :
  In x (map w (unlink w0 cs)) -> In x (map w cs).
Proof.
  rewrite !in_map_iff. intros (c & E & H). exists c. split; [exact E|].
  eapply unlink_subset, H.
Qed.

Lemma unlink_NoDup w0 cs :
  NoDup (map w cs) ->
  NoDup (map w (unlink w0 cs)) /\ ~ In w0 (map w (unlink w0 cs)).
Proof.
  induction cs as [|c cs IH]; cbn; [intros _; split; [constructor|tauto]|].
  intros H. inversion H as [|? ? Hc Hcs]; subst.
  destruct (Z.eqb_spec (w c) w0) as [E|E].
  - subst w0. auto.
  - destruct (IH Hcs) as [Hn Hi]. cbn. split.
    + constructor; [|exact Hn]. intros Hin. apply Hc.
      eapply unlink_handles_subset, Hin.
    + intros [F|F]; [exact (E F)|exact (Hi F)].
Qed.

(** What an event can do to the registry and to the current workspace. *)
Lemma dispatch_registry e s s' :
  dispatch e s = Ret s' ->
  (clients s' = clients s
   \/ (exists w0 ws, e = MapRequest w0 /\ ~ In w0 (handles s)
                     /\ 0 <= ws < WORKSPACES
                     /\ clients s' = {| w := w0; workspace := ws |} :: clients s)
   \/ (exists w0, clients s' = unlink w0 (clients s)))
  /\ (cur_ws s' = cur_ws s \/ 0 <= cur_ws s' < WORKSPACES).
Proof.
  assert (Hfr : forall t, framed s t ->
            (clients t = clients s \/
             (exists w0 ws, e = MapRequest w0 /\ ~ In w0 (handles s)
                     /\ 0 <= ws < WORKSPACES
                     /\ clients t = {| w := w0; workspace := ws |} :: clients s)
             \/ (exists w0, clients t = unlink w0 (clients s)))
            /\ (cur_ws t = cur_ws s \/ 0 <= cur_ws t < WORKSPACES)).
  { intros t ->. cbn. auto. }
  assert (Hcw : forall ws t, clients (change_ws ws t) = clients t /\
            (cur_ws (change_ws ws t) = cur_ws t
             \/ 0 <= cur_ws (change_ws ws t) < WORKSPACES)).
  { intros ws t. unfold change_ws.
    destruct (ws <? 0) eqn:E1; cbn [orb]; [auto|].
    destruct (ws >=? WORKSPACES) eqn:E2; cbn [orb]; [auto|].
    destruct (ws =? cur_ws t); [auto|].
    rewrite arrange_clients, arrange_cur_ws. cbn. split; [reflexivity|].
    right. lia. }
  destruct e as [w0|w0 se|w0|ev|w0|k kstate|]; cbn [dispatch].
  - unfold handle_maprequest.
    destruct (find_client w0 (clients s)) as [c|] eqn:Ef; cbn [is_set].
    + intros [= <-]. auto.
    + apply find_client_none in Ef.
      destruct (get_window_workspace_returns (dpy s) w0) as (ws & -> & Hws).
      cbn [bind]. destruct (ws <? 0) eqn:Elt.
      * intros [= <-]. apply Hfr. auto with frame.
      * assert (0 <= ws < WORKSPACES) as Hr by lia.
        destruct (negb _); intros [= <-].
        -- destruct (Hcw ws (add_client w0 ws s)) as [-> Hc]. split.
           ++ right. left. exists w0, ws. cbn. auto.
           ++ exact Hc.
        -- rewrite arrange_clients, arrange_cur_ws. split.
           ++ right. left. exists w0, ws. cbn. auto.
           ++ now left.
  - intros [= <-]. unfold handle_unmap. destruct se; [|auto].
    rewrite arrange_clients, arrange_cur_ws. cbn.
    split; [right; right; eexists; reflexivity|now left].
  - intros [= <-]. unfold handle_destroy.
    rewrite arrange_clients, arrange_cur_ws. cbn.
    split; [right; right; eexists; reflexivity|now left].
  - intros [= <-]. apply Hfr. unfold handle_configure_request. auto with frame.
  - intros [= <-]. apply Hfr, handle_enternotify_framed.
  - repeat match goal with
           | |- context [if ?b then _ else _] => destruct b
           end; intros [= <-];
      try (apply Hfr; first [ apply framed_refl | apply focus_next_framed
                            | apply focus_prev_framed | apply kill_focused_framed
                            | solve [unfold spawn_cmd; auto with frame] ]);
      try (destruct (Hcw 0 s) as [-> Hc]; auto);
      try (destruct (Hcw 1 s) as [-> Hc]; auto).
    cbn. auto.
  - intros [= <-]. auto.
Qed.

Lemma dispatch_total e s : exists s', dispatch e s = Ret s'.
Proof.
  destruct e as [w0|w0 se|w0|ev|w0|k kstate|]; cbn [dispatch]; eauto.
  - unfold handle_maprequest. destruct (is_set _); [eauto|].
    destruct (get_window_workspace_returns (dpy s) w0) as (ws & -> & _).
    cbn [bind]. destruct (ws <? 0); [eauto|]. destruct (negb _); eauto.
  - repeat match goal with
           | |- context [if ?b then _ else _] => destruct b
           end; eauto.
Qed.

Lemma dispatch_registry_ok e s s' :
  event_ok e -> registry_ok s -> dispatch e s = Ret s' -> registry_ok s'.
Proof.
  intros He [Hnd Hreal Hws Hcur] Hd.
  destruct (dispatch_registry e s s' Hd) as [Hc Hw].
  assert (Hcur' : 0 <= cur_ws s' < WORKSPACES) by (destruct Hw as [-> | ?]; auto).
  unfold handles in *.
  destruct Hc as [Hc | [(w0 & ws & -> & Hnew & Hr & Hc) | (w0 & Hc)]].
  - constructor; unfold handles; rewrite ?Hc; auto.
  - constructor; unfold handles; rewrite ?Hc; cbn; auto.
    + constructor; auto.
    + cbn in He. intros [F|F]; auto.
    + intros c [<- | Hin]; cbn; auto.
  - constructor; unfold handles; rewrite ?Hc; auto.
    + apply unlink_NoDup, Hnd.
    + intros F. apply Hreal. eapply unlink_handles_subset, F.
    + intros c Hin. apply Hws. eapply unlink_subset, Hin.
Qed.

Lemma reachable_registry_ok s : Reachable s -> registry_ok s.
Proof.
  induction 1 as [d r sw sh a1 a2 a3 term | s e s' _ IH He Hd | s d _ IH].
  - constructor; cbn; unfold WORKSPACES; try constructor; try tauto; lia.
  - eapply dispatch_registry_ok; eauto.
  - destruct IH as [Hnd Hreal Hws Hcur]. constructor; auto.
Qed.

(** *** Input focus *)

Lemma input_focus_X r s :
  input_focus (dpy (X r s)) =
  match r with XSetInputFocus w0 => w0 | _ => input_focus (dpy s) end.
Proof. destruct r; reflexivity. Qed.

Lemma set_focus_input_focus w0 s :
  input_focus (dpy (set_focus w0 s)) = if w0 =? XNone then root s else w0.
Proof.
  unfold set_focus. destruct (w0 =? XNone); [reflexivity|]. cbv zeta.
  match goal with |- context [if ?b then _ else _] => destruct b end;
    reflexivity.
Qed.

Lemma arrange_loop_cur_ws cs count tile_w i focused s :
  cur_ws (snd (arrange_loop cs count tile_w i focused s)) = cur_ws s.
Proof. apply framed_cur_ws, arrange_loop_framed, framed_refl. Qed.

Lemma arrange_loop_focused cs : forall count tile_w i focused s,
  0 <= i ->
  fst (arrange_loop cs count tile_w i focused s) =
  match filter (fun c => workspace c =? cur_ws s) cs with
  | [] => focused
  | c :: _ => if i =? 0 then Some c else focused
  end.
Proof.
  induction cs as [|c cs IH]; intros count tile_w i focused s Hi;
    cbn [arrange_loop filter]; [reflexivity|].
  destruct (workspace c =? cur_ws s).
  - rewrite IH by lia. cbn [X with_dpy cur_ws].
    replace (i + 1 =? 0) with false by (symmetry; apply Z.eqb_neq; lia).
    now destruct (filter _ cs).
  - rewrite IH by lia. reflexivity.
Qed.

Lemma members_handles ws cs x : In x (members ws cs) -> In x (map w cs).
Proof.
  unfold members. rewrite !in_map_iff. intros (c & E & H).
  apply filter_In in H. exists c. tauto.
Qed.

(** Every run of [arrange] leaves the input focus on the first client of
    the current workspace, on the root window when there is none. *)
Lemma arrange_input_focus s :
  ~ In XNone (handles s) ->
  input_focus (dpy (arrange s)) =
  focus_target (root s) (members (cur_ws s) (clients s)).
Proof.
  intros Hreal. unfold arrange, count_cur, members.
  pose proof (arrange_loop_focused (clients s)
                (Z.of_nat (List.length
                   (filter (fun c => workspace c =? cur_ws s) (clients s))))
                (Z.quot (screen_w s) (Z.of_nat (List.length
                   (filter (fun c => workspace c =? cur_ws s) (clients s)))))
                0 None s (Z.le_refl 0)) as Hf.
  pose proof (arrange_loop_framed (clients s)
                (Z.of_nat (List.length
                   (filter (fun c => workspace c =? cur_ws s) (clients s))))
                (Z.quot (screen_w s) (Z.of_nat (List.length
                   (filter (fun c => workspace c =? cur_ws s) (clients s)))))
                0 None s s (framed_refl s)) as Hfr.
  destruct (filter (fun c => workspace c =? cur_ws s) (clients s))
    as [|c m] eqn:Em.
  - cbn. reflexivity.
  - cbn [List.length]. rewrite Nat2Z.inj_succ.
    replace (Z.succ (Z.of_nat (List.length m)) =? 0) with false
      by (symmetry; apply Z.eqb_neq; lia).
    cbn [List.length] in Hf, Hfr. rewrite Nat2Z.inj_succ in Hf, Hfr.
    destruct (arrange_loop _ _ _ _ _ _) as [focused s1].
    cbn [fst snd] in Hf, Hfr. subst focused. cbn [Z.eqb].
    rewrite input_focus_X, set_focus_input_focus. cbn [map focus_target].
    destruct (Z.eqb_spec (w c) XNone) as [E|E]; [|reflexivity].
    exfalso. apply Hreal. unfold handles. rewrite <- E. apply in_map.
    assert (In c (filter (fun c => workspace c =? cur_ws s) (clients s)))
      as Hin by (rewrite Em; now left).
    apply filter_In in Hin. tauto.
Qed.

(** *** Focus cycling *)

Lemma focus_next_loop_found cs : forall ws fw x first,
  focus_next_loop cs ws fw (Some x) first =
  match filter (fun c => workspace c =? ws) cs with
  | [] => (first, None)
  | c :: _ => (match first with None => Some c | Some _ => first end, Some c)
  end.
Proof.
  induction cs as [|c cs IH]; intros ws fw x first;
    cbn [focus_next_loop filter]; [reflexivity|].
  destruct (workspace c =? ws); cbn [negb]; [reflexivity|apply IH].
Qed.

Lemma focus_next_loop_search cs : forall ws fw first,
  fst (focus_next_loop cs ws fw None first) =
    match first with
    | None => hd_error (filter (fun c => workspace c =? ws) cs)
    | Some _ => first
    end
  /\ option_map w (snd (focus_next_loop cs ws fw None first)) =
     successor fw (members ws cs).
Proof.
  unfold members.
  induction cs as [|c cs IH]; intros ws fw first;
    cbn [focus_next_loop filter].
  - cbn. now destruct first.
  - destruct (workspace c =? ws); cbn [negb]; [|apply IH].
    cbn [map successor hd_error]. destruct (w c =? fw).
    + rewrite focus_next_loop_found.
      destruct (filter _ cs) as [|c' m]; cbn; now destruct first.
    + destruct (IH ws fw (match first with None => Some c | Some _ => first end))
        as [H1 H2].
      rewrite H1, H2. now destruct first.
Qed.

Lemma focus_next_spec s :
  focus_next s =
  match members (cur_ws s) (clients s) with
  | [] => s
  | l => set_focus (next_window (input_focus (dpy s)) l) s
  end.
Proof.
  unfold focus_next, next_window.
  destruct (focus_next_loop_search (clients s) (cur_ws s)
              (input_focus (dpy s)) None) as [H1 H2].
  destruct (focus_next_loop _ _ _ _ _) as [first next]. cbn [fst snd] in *.
  unfold members in *. subst first.
  destruct (filter _ (clients s)) as [|c m]; cbn [hd_error map] in *.
  - destruct next as [n|]; [discriminate|reflexivity].
  - rewrite <- H2. destruct next as [n|]; reflexivity.
Qed.

Lemma successor_nth l : forall i d,
  NoDup l -> (i < List.length l)%nat ->
  successor (nth i l d) l = nth_error l (S i).
Proof.
  induction l as [|c l IH]; intros i d Hnd Hi; cbn in Hi; [lia|].
  inversion Hnd as [|? ? Hc Hl]; subst. destruct i as [|i]; cbn [nth successor].
  - rewrite Z.eqb_refl. now destruct l.
  - destruct (Z.eqb_spec c (nth i l d)) as [E|E].
    + exfalso. apply Hc. rewrite E. apply nth_In. lia.
    + rewrite IH by (auto; lia). reflexivity.
Qed.

Lemma next_window_nth l i :
  NoDup l -> (i < List.length l)%nat ->
  next_window (nth i l XNone) l =
  if (S i <? List.length l)%nat then nth (S i) l XNone else hd XNone l.
Proof.
  intros Hnd Hi. unfold next_window. rewrite successor_nth by assumption.
  destruct (Nat.ltb_spec (S i) (List.length l)) as [H|H].
  - destruct (nth_error l (S i)) eqn:E.
    + symmetry. now apply nth_error_nth.
    + apply nth_error_None in E. lia.
  - destruct (nth_error l (S i)) eqn:E; [|reflexivity].
    assert (nth_error l (S i) <> None) as Hn by congruence.
    apply nth_error_Some in Hn. lia.
Qed.

Lemma members_NoDup ws cs : NoDup (map w cs) -> NoDup (members ws cs).
Proof.
  unfold members. induction cs as [|c cs IH]; cbn; [auto|].
  intros H. inversion H as [|? ? Hc Hcs]; subst.
  destruct (workspace c =? ws); cbn; auto.
  constructor; auto. intros Hin. apply Hc.
  eapply members_handles with (ws := ws). exact Hin.
Qed.

(** One call: the focus moves to the successor of the focused member, and
    from the last member to the first. *)
Lemma focus_next_step s i :
  registry_ok s ->
  (i < List.length (members (cur_ws s) (clients s)))%nat ->
  input_focus (dpy s) = nth i (members (cur_ws s) (clients s)) XNone ->
  input_focus (dpy (focus_next s)) =
  if (S i <? List.length (members (cur_ws s) (clients s)))%nat
  then nth (S i) (members (cur_ws s) (clients s)) XNone
  else hd XNone (members (cur_ws s) (clients s)).
Proof.
  intros [Hnd Hreal _ _] Hi Hf. rewrite focus_next_spec.
  pose proof (members_NoDup (cur_ws s) (clients s) Hnd) as Hm.
  destruct (members (cur_ws s) (clients s)) as [|a l] eqn:El;
    [cbn in Hi; lia|].
  rewrite Hf, next_window_nth by assumption.
  rewrite set_focus_input_focus.
  match goal with
  | |- (if ?t =? XNone then _ else _) = _ =>
      destruct (Z.eqb_spec t XNone) as [E|E]; [|reflexivity]
  end.
  exfalso. apply Hreal. unfold handles.
  apply members_handles with (ws := cur_ws s). rewrite El, <- E.
  destruct (Nat.ltb_spec (S i) (List.length (a :: l))).
  - apply nth_In. lia.
  - now left.
Qed.

Lemma registry_ok_framed s t : framed s t -> registry_ok s -> registry_ok t.
Proof. intros -> [H1 H2 H3 H4]. constructor; auto. Qed.

Lemma iter_focus_next_framed s j : framed s (Nat.iter j focus_next s).
Proof.
  induction j as [|j IH]; [apply framed_refl|].
  change (Nat.iter (S j) focus_next s)
    with (focus_next (Nat.iter j focus_next s)).
  eapply framed_trans; [exact IH|apply focus_next_framed].
Qed.

Lemma iter_focus_next_focus s :
  registry_ok s ->
  input_focus (dpy s) = hd XNone (members (cur_ws s) (clients s)) ->
  forall j, (j < List.length (members (cur_ws s) (clients s)))%nat ->
  input_focus (dpy (Nat.iter j focus_next s)) =
    nth j (members (cur_ws s) (clients s)) XNone
  /\ input_focus (dpy (Nat.iter (S j) focus_next s)) =
     if (S j <? List.length (members (cur_ws s) (clients s)))%nat
     then nth (S j) (members (cur_ws s) (clients s)) XNone
     else hd XNone (members (cur_ws s) (clients s)).
Proof.
  intros Hok Hf j. induction j as [|j IH]; intros Hj.
  - assert (input_focus (dpy (Nat.iter 0 focus_next s)) =
            nth 0 (members (cur_ws s) (clients s)) XNone) as H0.
    { change (Nat.iter 0 focus_next s) with s. rewrite Hf.
      now destruct (members (cur_ws s) (clients s)). }
    split; [exact H0|].
    change (Nat.iter 1 focus_next s) with (focus_next s).
    apply focus_next_step; auto.
  - destruct IH as [_ IH]; [lia|].
    replace (S j <? List.length (members (cur_ws s) (clients s)))%nat
      with true in IH by (symmetry; apply Nat.ltb_lt; lia).
    split; [exact IH|].
    pose proof (iter_focus_next_framed s (S j)) as Hfr.
    change (Nat.iter (S (S j)) focus_next s)
      with (focus_next (Nat.iter (S j) focus_next s)).
    rewrite <- (framed_clients _ _ Hfr), <- (framed_cur_ws _ _ Hfr).
    apply focus_next_step.
    + eapply registry_ok_framed; eauto.
    + rewrite (framed_clients _ _ Hfr), (framed_cur_ws _ _ Hfr). exact Hj.
    + rewrite (framed_clients _ _ Hfr), (framed_cur_ws _ _ Hfr). exact IH.
Qed.

Lemma map_nth_seq (l : list Window) :
  map (fun j => nth j l XNone) (seq 0 (List.length l)) = l.
Proof.
  induction l as [|a l IH]; [reflexivity|].
  cbn [List.length seq map nth]. f_equal.
  rewrite <- seq_shift, map_map. exact IH.
Qed.

(** K calls of [focus_next] from the first member: the focus goes through
    the other members in list order and comes back to the first. *)
Lemma visited_cycle s a rest :
  registry_ok s ->
  members (cur_ws s) (clients s) = a :: rest ->
  input_focus (dpy s) = a ->
  visited s (List.length (a :: rest)) = rest ++ [a].
Proof.
  intros Hok Hm Hf.
  assert (Hhd : input_focus (dpy s) = hd XNone (members (cur_ws s) (clients s)))
    by (rewrite Hm; exact Hf).
  pose proof (iter_focus_next_focus s Hok Hhd) as Hit. rewrite Hm in Hit.
  unfold visited. cbn [List.length].
  replace (S (List.length rest)) with (List.length rest + 1)%nat by lia.
  rewrite seq_app, map_app. f_equal.
  - rewrite <- (map_nth_seq rest) at 2.
    rewrite <- seq_shift, map_map. apply map_ext_in.
    intros j Hj. apply in_seq in Hj.
    destruct (Hit j) as [_ H]; [cbn; lia|]. rewrite H.
    replace (S j <? List.length (a :: rest))%nat with true
      by (symmetry; apply Nat.ltb_lt; cbn; lia).
    reflexivity.
  - cbn [seq map]. f_equal.
    replace (1 + List.length rest)%nat with (S (List.length rest)) by lia.
    destruct (Hit (List.length rest)) as [_ H]; [cbn; lia|]. rewrite H.
    replace (S (List.length rest) <? List.length (a :: rest))%nat with false
      by (symmetry; apply Nat.ltb_ge; cbn; lia).
    reflexivity.
Qed.

(** *** Tiling *)

Lemma moves_X r s :
  moves (X r s) = moves s ++ (if is_move r then [r] else []).
Proof.
  unfold moves. replace (requests (dpy (X r s))) with (requests (dpy s) ++ [r])
    by (destruct r; reflexivity).
  rewrite filter_app. cbn. now destruct (is_move r).
Qed.

Lemma unfocus_all_moves cs : forall s,
  moves (fold_left
           (fun st c =>
              if workspace c =? cur_ws st
              then set_border (w c) BORDER_UNFOCUS st else st) cs s)
  = moves s.
Proof.
  induction cs as [|c cs IH]; intros s; cbn [fold_left]; [reflexivity|].
  rewrite IH. destruct (workspace c =? cur_ws s); [|reflexivity].
  unfold set_border. rewrite moves_X. cbn [is_move]. apply app_nil_r.
Qed.

Lemma set_focus_moves w0 s : moves (set_focus w0 s) = moves s.
Proof.
  unfold set_focus. destruct (w0 =? XNone).
  - rewrite moves_X. cbn [is_move]. apply app_nil_r.
  - cbv zeta.
    match goal with |- context [if ?b then _ else _] => destruct b end;
      unfold set_border;
      repeat (rewrite moves_X; cbn [is_move]; rewrite app_nil_r);
      apply unfocus_all_moves.
Qed.

Lemma spec_column_code W count i :
  0 <= W -> 0 < count -> i <= count - 1 ->
  (i * Z.quot W count,
   if i =? count - 1 then W - i * Z.quot W count else Z.quot W count)
  = spec_column W count i.
Proof.
  intros HW Hc Hi. unfold spec_column. cbv zeta.
  rewrite Z.quot_div_nonneg by lia. f_equal.
  destruct (Z.eqb_spec i (count - 1)) as [E|E];
    destruct (Z.ltb_spec i (count - 1)); subst; lia.
Qed.

Lemma arrange_loop_moves cs : forall count tile_w W i focused s,
  screen_w s = W -> tile_w = Z.quot W count ->
  0 <= W -> 0 < count ->
  i + Z.of_nat (List.length (members (cur_ws s) cs)) = count ->
  moves (snd (arrange_loop cs count tile_w i focused s))
  = moves s ++
    tiling (screen_h s) (members (cur_ws s) cs)
      (spec_columns W count (List.length (members (cur_ws s) cs)) i).
Proof.
  unfold members, tiling.
  induction cs as [|c cs IH]; intros count tile_w W i focused s HsW Htw HW Hc Hi;
    cbn [arrange_loop filter] in Hi |- *.
  - cbn. symmetry. apply app_nil_r.
  - destruct (workspace c =? cur_ws s) eqn:Ec.
    + cbn [map List.length] in Hi |- *. rewrite Nat2Z.inj_succ in Hi.
      rewrite (IH count tile_w W (i + 1)) by (cbn; auto; lia).
      cbn [cur_ws screen_w screen_h X with_dpy].
      rewrite !moves_X. cbn [is_move]. rewrite app_nil_r, <- app_assoc.
      f_equal. cbn [spec_columns combine map app fst snd]. f_equal.
      unfold tile_request.
      rewrite <- (spec_column_code W count i) by lia.
      subst tile_w. rewrite HsW. reflexivity.
    + rewrite (IH count tile_w W i) by (cbn; auto).
      cbn [cur_ws screen_w screen_h X with_dpy].
      rewrite moves_X. cbn [is_move]. now rewrite app_nil_r.
Qed.

Lemma spec_columns_span W n : forall k i,
  0 <= W -> 0 <= i -> (0 < k)%nat -> i + Z.of_nat k = n ->
  spans (i * (W / n)) W (spec_columns W n k i).
Proof.
  induction k as [|k IH]; intros i HW Hi Hk Hn; [lia|].
  assert (0 < n) as Hpos by lia.
  pose proof (Z.mul_div_le W n Hpos) as Hle.
  assert (0 <= W / n) as Hb by (apply Z.div_pos; lia).
  cbn [spec_columns spans]. unfold spec_column at 1. cbv zeta.
  split; [reflexivity|].
  destruct (Z.ltb_spec i (n - 1)) as [Hlt|Hge].
  - split; [exact Hb|].
    replace (i * (W / n) + W / n) with ((i + 1) * (W / n)) by ring.
    apply IH; lia.
  - assert (k = O) as -> by lia. cbn [spec_columns spans].
    assert (i = n - 1) as -> by lia. split; [nia|ring].
Qed.

(** The offsets and widths of the columns stay between 0 and the screen
    width, so the [int]s of [arrange] do not overflow. *)
Lemma spec_column_bounds W n i :
  0 <= W -> 0 < n -> 0 <= i <= n - 1 ->
  0 <= fst (spec_column W n i) <= W /\ 0 <= snd (spec_column W n i) <= W.
Proof.
  intros HW Hn Hi. unfold spec_column. cbv zeta. cbn [fst snd].
  pose proof (Z.mul_div_le W n Hn) as Hle.
  assert (0 <= W / n) as Hb by (apply Z.div_pos; lia).
  destruct (Z.ltb_spec i (n - 1)); nia.
Qed.

(** [arrange] with no client on the current workspace computes no
    geometry; with [n >= 1] clients it tiles them, in list order, into the
    columns of the specification, which partition the screen width. *)
Lemma arrange_partitions_screen s :
  0 <= screen_w s ->
  (count_cur s = 0 -> moves (arrange s) = moves s)
  /\ (1 <= count_cur s ->
      moves (arrange s) =
        moves s ++
        tiling (screen_h s) (members (cur_ws s) (clients s))
          (spec_columns (screen_w s) (count_cur s)
             (Z.to_nat (count_cur s)) 0)
      /\ spans 0 (screen_w s)
           (spec_columns (screen_w s) (count_cur s)
              (Z.to_nat (count_cur s)) 0)).
Proof.
  intros HW. split.
  - intros H0. unfold arrange. rewrite H0. cbn [Z.eqb].
    apply set_focus_moves.
  - intros Hn. split.
    + unfold arrange.
      replace (count_cur s =? 0) with false by (symmetry; apply Z.eqb_neq; lia).
      cbv zeta.
      assert (Hlen : Z.of_nat (List.length (members (cur_ws s) (clients s)))
                     = count_cur s).
      { unfold members, count_cur. now rewrite length_map. }
      pose proof (arrange_loop_moves (clients s) (count_cur s)
                    (Z.quot (screen_w s) (count_cur s)) (screen_w s) 0 None s
                    eq_refl eq_refl HW ltac:(lia) ltac:(lia)) as Hl.
      pose proof (arrange_loop_framed (clients s) (count_cur s)
                    (Z.quot (screen_w s) (count_cur s)) 0 None s s
                    (framed_refl s)) as Hfr.
      destruct (arrange_loop _ _ _ _ _ _) as [focused s1]. cbn [snd] in *.
      rewrite moves_X. cbn [is_move]. rewrite app_nil_r.
      replace (Z.to_nat (count_cur s))
        with (List.length (members (cur_ws s) (clients s))) by lia.
      rewrite <- Hl. destruct focused; [apply set_focus_moves|reflexivity].
    + replace 0 with (0 * (screen_w s / count_cur s)) at 1 by ring.
      apply spec_columns_span; lia.
Qed.

(** *** Consequences used for the claims *)




(** A map request for a window that is already managed is ignored. *)
Lemma maprequest_of_managed_ignored w0 s :
  In w0 (handles s) -> handle_maprequest w0 s = Ret s.
Proof.
  intros Hin. unfold handle_maprequest.
  destruct (find_client w0 (clients s)) eqn:E; [reflexivity|].
  apply find_client_none in E. contradiction.
Qed.

(** Invariant 1: no handle is registered twice, whatever happened. *)
Lemma reachable_handles_once s : Reachable s -> NoDup (handles s).
Proof. intros H. apply reachable_registry_ok in H. now destruct H. Qed.

Lemma remove_client_absent w0 s :
  ~ In w0 (handles s) -> remove_client w0 s = s.
Proof.
  intros H. unfold remove_client. rewrite unlink_absent by exact H.
  destruct s; reflexivity.
Qed.

(** A second destroy (or synthetic unmap) for the same window finds the
    registry as the first one left it. *)
Lemma handle_destroy_twice w0 s :
  Reachable s ->
  clients (handle_destroy w0 (handle_destroy w0 s))
  = clients (handle_destroy w0 s)
  /\ clients (handle_unmap w0 true (handle_unmap w0 true s))
     = clients (handle_unmap w0 true s).
Proof.
  intros Hr. apply reachable_handles_once in Hr.
  unfold handle_unmap, handle_destroy.
  rewrite !arrange_clients. cbn [remove_client clients with_clients].
  rewrite !arrange_clients. cbn [remove_client clients with_clients].
  rewrite (unlink_absent w0 (unlink w0 (clients s)));
    [auto|apply unlink_NoDup, Hr].
Qed.

Lemma change_ws_noop ws s :
  ws = cur_ws s \/ ws < 0 \/ WORKSPACES <= ws -> change_ws ws s = s.
Proof.
  intros H. unfold change_ws.
  destruct (Z.ltb_spec ws 0); cbn [orb]; [reflexivity|].
  destruct (Z.geb_spec ws WORKSPACES); cbn [orb]; [reflexivity|].
  destruct (Z.eqb_spec ws (cur_ws s)); [reflexivity|lia].
Qed.

Lemma arrange_head_focused s :
  ~ In XNone (handles s) -> head_focused (arrange s).
Proof.
  intros H. unfold head_focused.
  rewrite arrange_input_focus by exact H.
  pose proof (arrange_framed s) as Hf.
  now rewrite (framed_clients _ _ Hf), (framed_cur_ws _ _ Hf),
    (framed_root _ _ Hf).
Qed.

Lemma reachable_exec evs : forall s,
  Reachable s -> Forall event_ok evs -> Reachable (exec evs s).
Proof.
  unfold exec. induction evs as [|e evs IH]; intros s Hr Hok; cbn [run];
    [exact Hr|].
  inversion Hok as [|? ? He Hevs]; subst.
  destruct (running s); [|exact Hr].
  destruct (dispatch_total e s) as [s' Hd]. rewrite Hd. cbn [bind].
  assert (Reachable s') as Hr' by (eapply reach_event; eauto).
  specialize (IH s' Hr' Hevs).
  destruct (run evs s'); [exact IH|exact Hr].
Qed.

Lemma unlink_split w0 cs :
  unlink w0 cs = cs
  \/ exists before c after, cs = before ++ c :: after /\ w c = w0
                            /\ unlink w0 cs = before ++ after.
Proof.
  induction cs as [|c cs IH]; cbn; [now left|].
  destruct (Z.eqb_spec (w c) w0) as [E|E].
  - right. exists [], c, cs. auto.
  - destruct IH as [-> | (b & x & a & E1 & E2 & ->)]; [now left|].
    right. exists (c :: b), x, a. subst cs. auto.
Qed.

(** The shapes the registry can take after an event: unchanged, the mapped
    window put in front, or one node unlinked. *)
Lemma dispatch_clients e s s' :
  dispatch e s = Ret s' ->
  clients s' = clients s
  \/ (exists w0 ws, e = MapRequest w0
                    /\ clients s' = {| w := w0; workspace := ws |} :: clients s)
  \/ (exists before c after,
         clients s = before ++ c :: after /\ clients s' = before ++ after).
Proof.
  intros H. destruct (dispatch_registry e s s' H) as [Hc _].
  destruct Hc as [Hc | [(w0 & ws & He & _ & _ & Hc) | (w0 & Hc)]].
  - now left.
  - right. left. eauto.
  - rewrite Hc.
    destruct (unlink_split w0 (clients s)) as [-> | (b & c & a & E & _ & ->)];
      [now left|].
    right. right. eauto.
Qed.

Lemma add_client_members w0 ws s :
  members ws (clients (add_client w0 ws s)) = w0 :: members ws (clients s)
  /\ forall ws', ws' <> ws ->
       members ws' (clients (add_client w0 ws s)) = members ws' (clients s).
Proof.
  unfold members, add_client. cbn [clients X with_dpy with_clients filter workspace].
  split.
  - now rewrite Z.eqb_refl.
  - intros ws' H. apply Z.eqb_neq in H. rewrite Z.eqb_sym in H. now rewrite H.
Qed.

(** The three outcomes of a map request: ignored, rejected, or registered
    in front and followed by [arrange] on the window's workspace. *)
Lemma handle_maprequest_cases w0 s s' :
  handle_maprequest w0 s = Ret s' ->
  (In w0 (handles s) /\ s' = s)
  \/ (~ In w0 (handles s)
      /\ get_window_workspace (dpy s) w0 = Ret (-1)
      /\ s' = X (XKillClient w0) s)
  \/ (exists ws t,
         ~ In w0 (handles s) /\ 0 <= ws < WORKSPACES
         /\ get_window_workspace (dpy s) w0 = Ret ws
         /\ clients t = {| w := w0; workspace := ws |} :: clients s
         /\ cur_ws t = ws /\ root t = root s
         /\ s' = arrange t).
Proof.
  unfold handle_maprequest.
  destruct (find_client w0 (clients s)) as [c|] eqn:Ef; cbn [is_set].
  - intros [= <-]. left. split; [|reflexivity].
    apply find_client_some in Ef. destruct Ef as [Hin <-].
    unfold handles. now apply in_map.
  - apply find_client_none in Ef.
    destruct (get_window_workspace_returns (dpy s) w0) as (ws & E & Hws).
    rewrite E. cbn [bind].
    destruct (Z.ltb_spec ws 0) as [Hlt|Hge].
    + intros [= <-]. right. left. repeat split; auto.
      destruct Hws as [-> | ?]; [reflexivity|lia].
    + assert (0 <= ws < WORKSPACES) as Hr by lia.
      intros H. right. right. exists ws.
      destruct (Z.eqb_spec ws (cur_ws (add_client w0 ws s))) as [Ec|Ec];
        cbn [negb] in H; injection H as <-.
      * exists (add_client w0 ws s). repeat split; auto; lia.
      * exists (with_cur_ws ws (add_client w0 ws s)).
        repeat split; auto; try lia.
        unfold change_ws.
        replace (ws <? 0) with false by (symmetry; apply Z.ltb_ge; lia).
        replace (ws >=? WORKSPACES) with false
          by (symmetry; rewrite Z.geb_leb; apply Z.leb_gt; lia).
        replace (ws =? cur_ws (add_client w0 ws s)) with false
          by (symmetry; now apply Z.eqb_neq).
        reflexivity.
Qed.

(** In every reachable state with the focus on the first of the K members
    of the current workspace, K calls of [focus_next] visit the other
    members in list order, each once, and end on the first; the registry is
    not touched. *)
Lemma focus_next_cycles s a rest :
  Reachable s ->
  members (cur_ws s) (clients s) = a :: rest ->
  input_focus (dpy s) = a ->
  visited s (List.length (a :: rest)) = rest ++ [a]
  /\ NoDup (rest ++ [a])
  /\ clients (Nat.iter (List.length (a :: rest)) focus_next s) = clients s.
Proof.
  intros Hr Hm Hf. pose proof (reachable_registry_ok s Hr) as Hok.
  split; [now apply visited_cycle|]. split.
  - destruct Hok as [Hnd _ _ _].
    apply (members_NoDup (cur_ws s)) in Hnd. rewrite Hm in Hnd.
    eapply Permutation.Permutation_NoDup; [|exact Hnd].
    change (a :: rest) with ([a] ++ rest). apply Permutation.Permutation_app_comm.
  - apply framed_clients, iter_focus_next_framed.
Qed.


Example focus_next_cycles_three :
  Readme.members 0 (clients Session.fixed_three) = [103; 102; 101]
  /\ input_focus (dpy Session.fixed_three) = 103
  /\ visited Session.fixed_three 3 = [102; 101; 103].
Proof. repeat split; vm_compute; reflexivity. Qed.

(** On the 1921 pixel wide screen three windows get the columns 640, 640
    and 641 wide (drawn 4 pixels narrower, for the borders). *)
Example arrange_three_on_1921 :
  filter is_move (issued Session.fixed_two Session.fixed_three) =
    [XMoveResizeWindow 103 0 0 636 1076;
     XMoveResizeWindow 102 640 0 636 1076;
     XMoveResizeWindow 101 1280 0 637 1076]
  /\ spec_columns 1921 3 3 0 = [(0, 640); (640, 640); (1280, 641)].
Proof. split; vm_compute; reflexivity. Qed.

End ReadmeFacts.

(** ** Facts about src/madawm.c *)

Module MadaWMFacts.
Import X11 MadaWM MadaWMModel.

Lemma mada_with_dpy_dpy s : with_dpy (dpy s) s = s.
Proof. destruct s; reflexivity. Qed.

Lemma with_ws_ws s : with_ws (ws s) s = s.
Proof. destruct s; reflexivity. Qed.

Lemma mada_framed_refl s : framed s s.
Proof. unfold framed. now rewrite mada_with_dpy_dpy. Qed.

Lemma mada_framed_X s t r : framed s t -> framed s (X r t).
Proof. unfold framed, X. intros ->. reflexivity. Qed.

Lemma mada_arrange_loop_framed cs : forall i w0 s t,
  framed s t -> framed s (arrange_loop cs i w0 t).
Proof.
  induction cs as [|c cs IH]; intros i w0 s t Ht; cbn [arrange_loop];
    [exact Ht|].
  apply IH. now repeat apply mada_framed_X.
Qed.

Lemma mada_arrange_framed s : framed s (arrange s).
Proof.
  unfold arrange. destruct (_ =? 0); [apply mada_framed_refl|].
  apply mada_framed_X, mada_arrange_loop_framed, mada_framed_refl.
Qed.

Lemma arrange_ws s : ws (arrange s) = ws s.
Proof. now rewrite (mada_arrange_framed s). Qed.

Lemma mada_arrange_cur_ws s : cur_ws (arrange s) = cur_ws s.
Proof. now rewrite (mada_arrange_framed s). Qed.

(** *** The array of client lists *)

Lemma nth_store {A} (l : list A) : forall n x d,
  (n < List.length l)%nat -> nth n (store n x l) d = x.
Proof.
  induction l as [|a l IH]; intros [|n] x d H; cbn in *; try lia; auto.
  apply IH. lia.
Qed.

Lemma nth_store_other {A} (l : list A) : forall n m x d,
  n <> m -> nth m (store n x l) d = nth m l d.
Proof.
  induction l as [|a l IH]; intros [|n] [|m] x d H; cbn; auto; try lia.
Qed.

Lemma store_store {A} (l : list A) : forall n x y,
  store n x (store n y l) = store n x l.
Proof.
  induction l as [|a l IH]; intros [|n] x y; cbn; auto. now rewrite IH.
Qed.

Lemma store_nth {A} (l : list A) : forall n d,
  (n < List.length l)%nat -> store n (nth n l d) l = l.
Proof.
  induction l as [|a l IH]; intros [|n] d H; cbn in *; try lia; auto.
  rewrite IH by lia. reflexivity.
Qed.

Lemma ws_at_inhabited s i c rest :
  ws_at s i = c :: rest -> (Z.to_nat i < List.length (ws s))%nat.
Proof.
  unfold ws_at. intros H.
  destruct (Nat.lt_ge_cases (Z.to_nat i) (List.length (ws s))) as [Hlt|Hge];
    [exact Hlt|].
  rewrite nth_overflow in H by exact Hge. discriminate.
Qed.

(** [add_client] puts the window in front of the current workspace's list. *)
Lemma add_client_head s w0 :
  (Z.to_nat (cur_ws s) < List.length (ws s))%nat ->
  ws_at (add_client w0 s) (cur_ws s) = w0 :: ws_at s (cur_ws s).
Proof.
  intros H. unfold add_client, ws_at, set_ws_at. cbn [ws with_ws].
  now apply nth_store.
Qed.

Lemma add_client_elsewhere s w0 i :
  Z.to_nat i <> Z.to_nat (cur_ws s) ->
  ws_at (add_client w0 s) i = ws_at s i.
Proof.
  intros H. unfold add_client, ws_at, set_ws_at. cbn [ws with_ws].
  apply nth_store_other. auto.
Qed.

(** Taking the head out and adding it again gives the state back. *)
Lemma readd_head s first rest :
  ws_at s (cur_ws s) = first :: rest ->
  add_client first (remove_client_from_ws first (cur_ws s) s) = s.
Proof.
  intros H. pose proof (ws_at_inhabited _ _ _ _ H) as Hlt.
  unfold add_client, remove_client_from_ws.
  rewrite H. cbn [unlink]. rewrite Z.eqb_refl.
  unfold set_ws_at at 1. cbn [cur_ws with_ws set_ws_at ws].
  unfold ws_at. cbn [ws with_ws set_ws_at].
  rewrite nth_store by exact Hlt. rewrite store_store.
  unfold ws_at in H. rewrite <- H, store_nth by exact Hlt.
  destruct s; reflexivity.
Qed.

(** *** Tiling *)

Lemma mada_moves_X r s :
  moves (X r s) = moves s ++ (if is_move r then [r] else []).
Proof.
  unfold moves. replace (requests (dpy (X r s))) with (requests (dpy s) ++ [r])
    by (destruct r; reflexivity).
  rewrite filter_app. cbn. now destruct (is_move r).
Qed.

Lemma mada_arrange_loop_moves cs : forall i w0 s,
  moves (arrange_loop cs i w0 s)
  = moves s ++ equal_columns (screen_h s) w0 cs i.
Proof.
  induction cs as [|c cs IH]; intros i w0 s;
    cbn [arrange_loop equal_columns].
  - symmetry. apply app_nil_r.
  - rewrite IH, !mada_moves_X. cbn [is_move screen_h X with_dpy].
    rewrite app_nil_r, <- app_assoc. reflexivity.
Qed.

(** Every column of [arrange], the last one too, is [screen_w / count]
    wide. *)
Lemma arrange_moves s :
  moves (arrange s) =
  moves s ++
  equal_columns (screen_h s)
    (Z.quot (screen_w s) (Z.of_nat (List.length (ws_at s (cur_ws s)))))
    (ws_at s (cur_ws s)) 0.
Proof.
  unfold arrange.
  destruct (ws_at s (cur_ws s)) as [|c cs] eqn:E.
  - cbn. symmetry. apply app_nil_r.
  - replace (Z.of_nat (List.length (c :: cs)) =? 0) with false
      by (symmetry; apply Z.eqb_neq; cbn [List.length]; lia).
    rewrite mada_moves_X. cbn [is_move]. rewrite app_nil_r.
    apply mada_arrange_loop_moves.
Qed.

(** *** Input focus: the program never asks for it *)

Lemma focus_untouched_refl s : focus_untouched s s.
Proof. split; reflexivity. Qed.

Lemma focus_untouched_X s t r :
  is_focus r = false -> focus_untouched s t -> focus_untouched s (X r t).
Proof.
  intros Hr [H1 H2]. split.
  - rewrite <- H1. destruct r; try reflexivity. discriminate.
  - rewrite <- H2.
    replace (requests (dpy (X r t))) with (requests (dpy t) ++ [r])
      by (destruct r; reflexivity).
    rewrite filter_app. cbn. rewrite Hr. apply app_nil_r.
Qed.

Lemma focus_untouched_with_ws s t l :
  focus_untouched s t -> focus_untouched s (with_ws l t).
Proof. intros H. exact H. Qed.

Lemma arrange_loop_focus cs : forall i w0 s t,
  focus_untouched s t -> focus_untouched s (arrange_loop cs i w0 t).
Proof.
  induction cs as [|c cs IH]; intros i w0 s t Ht; cbn [arrange_loop];
    [exact Ht|].
  apply IH. now repeat apply focus_untouched_X.
Qed.

Lemma arrange_focus s t : focus_untouched s t -> focus_untouched s (arrange t).
Proof.
  intros Ht. unfold arrange. destruct (_ =? 0); [exact Ht|].
  apply focus_untouched_X; [reflexivity|]. now apply arrange_loop_focus.
Qed.

Lemma unmap_all_focus cs : forall s t,
  focus_untouched s t ->
  focus_untouched s (fold_left (fun st c => X (XUnmapWindow c) st) cs t).
Proof.
  induction cs as [|c cs IH]; intros s t Ht; cbn [fold_left]; [exact Ht|].
  apply IH. now apply focus_untouched_X.
Qed.

Lemma change_ws_focus idx s : focus_untouched s (change_ws idx s).
Proof.
  unfold change_ws. destruct (_ || _); [apply focus_untouched_refl|].
  apply arrange_focus.
  pose proof (unmap_all_focus (ws_at s (cur_ws s)) s s (focus_untouched_refl s))
    as H.
  exact H.
Qed.

Lemma focus_next_focus s : focus_untouched s (focus_next s).
Proof.
  unfold focus_next. destruct (ws_at s (cur_ws s)); [apply focus_untouched_refl|].
  apply arrange_focus. split; reflexivity.
Qed.

Lemma focus_prev_focus s : focus_untouched s (focus_prev s).
Proof.
  unfold focus_prev.
  destruct (ws_at s (cur_ws s)) as [|c [|c' rest]];
    try apply focus_untouched_refl.
  destruct (walk_to_last c (c' :: rest)) as [before l].
  apply arrange_focus. split; reflexivity.
Qed.

(** No event makes the program move the input focus. *)
Lemma dispatch_focus e s s' :
  dispatch e s = Ret s' -> focus_untouched s s'.
Proof.
  destruct e as [w0|w0 se|w0|ev|w0|k kstate|]; cbn [dispatch].
  - unfold handle_maprequest. destruct (allowed_window _ _) as [ok|];
      cbn [bind]; [|discriminate].
    destruct (ok =? 0); intros [= <-].
    + apply focus_untouched_X; [reflexivity|apply focus_untouched_refl].
    + apply arrange_focus. apply focus_untouched_X; [reflexivity|].
      split; reflexivity.
  - intros [= <-]. apply arrange_focus. split; reflexivity.
  - intros [= <-]. apply arrange_focus. split; reflexivity.
  - intros [= <-]. apply focus_untouched_X; [reflexivity|].
    apply focus_untouched_refl.
  - intros [= <-]. apply focus_untouched_refl.
  - repeat match goal with
           | |- context [if ?b then _ else _] => destruct b
           end; intros [= <-];
      first [ apply change_ws_focus | apply focus_next_focus
            | apply focus_prev_focus | apply focus_untouched_refl
            | apply focus_untouched_X;
              [reflexivity|apply focus_untouched_refl]
            | split; reflexivity ].
  - intros [= <-]. apply focus_untouched_refl.
Qed.

(** *** What an event can do to the client lists *)

Lemma mada_unlink_absent w0 l : ~ In w0 l -> unlink w0 l = l.
Proof.
  induction l as [|c l IH]; cbn; [reflexivity|].
  intros H. destruct (Z.eqb_spec c w0) as [E|E]; [tauto|].
  f_equal. apply IH. tauto.
Qed.

(** Unlinking twice is unlinking once as long as the window is in the list
    at most once. *)
Lemma unlink_twice w0 l :
  NoDup l -> unlink w0 (unlink w0 l) = unlink w0 l.
Proof.
  induction l as [|c l IH]; cbn; [reflexivity|].
  intros H. inversion H as [|? ? Hc Hl]; subst.
  destruct (Z.eqb_spec c w0) as [E|E].
  - subst c. now apply mada_unlink_absent.
  - cbn. destruct (Z.eqb_spec c w0); [contradiction|].
    now rewrite IH.
Qed.

Lemma mada_unlink_split w0 l :
  unlink w0 l = l
  \/ exists before after, l = before ++ w0 :: after
                          /\ unlink w0 l = before ++ after.
Proof.
  induction l as [|c l IH]; cbn; [now left|].
  destruct (Z.eqb_spec c w0) as [E|E].
  - right. exists [], l. subst. auto.
  - destruct IH as [-> | (b & a & E1 & ->)]; [now left|].
    right. exists (c :: b), a. subst l. auto.
Qed.

Lemma walk_to_last_spec rest : forall c before l,
  walk_to_last c rest = (before, l) -> c :: rest = before ++ [l].
Proof.
  induction rest as [|n rest IH]; intros c before l; cbn [walk_to_last].
  - intros [= <- <-]. reflexivity.
  - destruct (walk_to_last n rest) as [b x] eqn:E. intros [= <- <-].
    cbn. f_equal. now apply IH.
Qed.

Lemma ws_at_set_ws_at s j l i :
  ws_at (set_ws_at j l s) i = ws_at s i
  \/ (Z.to_nat i = Z.to_nat j /\ ws_at (set_ws_at j l s) i = l).
Proof.
  unfold ws_at, set_ws_at. cbn [ws with_ws].
  destruct (Nat.eq_dec (Z.to_nat j) (Z.to_nat i)) as [E|E].
  - destruct (Nat.lt_ge_cases (Z.to_nat j) (List.length (ws s))) as [Hlt|Hge].
    + right. rewrite <- E. split; [reflexivity|]. now apply nth_store.
    + left. rewrite <- E.
      assert (forall (A : Type) (xs : list A) n x,
                 (List.length xs <= n)%nat -> store n x xs = xs) as Hst.
      { induction xs as [|a xs IHx]; intros [|n] x Hn; cbn in *; auto; try lia.
        rewrite IHx by lia. reflexivity. }
      now rewrite Hst.
  - left. now apply nth_store_other.
Qed.

Lemma ws_at_same_index s i j :
  Z.to_nat i = Z.to_nat j -> ws_at s i = ws_at s j.
Proof. unfold ws_at. now intros ->. Qed.

Lemma unmap_all_framed cs : forall s t,
  framed s t ->
  framed s (fold_left (fun st c => X (XUnmapWindow c) st) cs t).
Proof.
  induction cs as [|c cs IH]; intros s t Ht; cbn [fold_left]; [exact Ht|].
  apply IH. now apply mada_framed_X.
Qed.

Lemma change_ws_ws idx s : ws (change_ws idx s) = ws s.
Proof.
  unfold change_ws. destruct (_ || _); [reflexivity|].
  rewrite arrange_ws. cbn [ws with_cur_ws].
  now rewrite (unmap_all_framed (ws_at s (cur_ws s)) s s (mada_framed_refl s)).
Qed.

Lemma focus_next_arrange s : focus_next s = arrange s.
Proof.
  unfold focus_next. destruct (ws_at s (cur_ws s)) as [|first rest] eqn:E.
  - unfold arrange. now rewrite E.
  - now rewrite (readd_head s first rest E).
Qed.

Lemma ws_at_arrange s i : ws_at (arrange s) i = ws_at s i.
Proof. unfold ws_at. now rewrite arrange_ws. Qed.

(** The shapes a workspace's list can take after an event: unchanged, the
    mapped window put in front, one node unlinked, or, for [focus_prev], the
    last node moved to the front. *)
Lemma dispatch_lists e s s' i :
  dispatch e s = Ret s' ->
  ws_at s' i = ws_at s i
  \/ (exists w0, e = MapRequest w0 /\ ws_at s' i = w0 :: ws_at s i)
  \/ (exists w0 before after,
         ws_at s i = before ++ w0 :: after /\ ws_at s' i = before ++ after)
  \/ (exists kstate before l,
         e = KeyPress XK_h kstate
         /\ ws_at s i = before ++ [l] /\ ws_at s' i = l :: before).
Proof.
  assert (Hfr : forall t, ws t = ws s -> ws_at t i = ws_at s i).
  { intros t Ht. unfold ws_at. now rewrite Ht. }
  assert (Hrm : forall w0,
             ws_at (arrange (remove_client_from_ws w0 (cur_ws s) s)) i = ws_at s i
             \/ (exists w1 before after,
                    ws_at s i = before ++ w1 :: after
                    /\ ws_at (arrange (remove_client_from_ws w0 (cur_ws s) s)) i
                       = before ++ after)).
  { intros w0. rewrite ws_at_arrange. unfold remove_client_from_ws.
    destruct (ws_at_set_ws_at s (cur_ws s) (unlink w0 (ws_at s (cur_ws s))) i)
      as [-> | [Hi ->]]; [now left|].
    rewrite <- (ws_at_same_index s i (cur_ws s) Hi).
    destruct (mada_unlink_split w0 (ws_at s i)) as [-> | (b & a & E & ->)];
      [now left|].
    right. exists w0, b, a. auto. }
  destruct e as [w0|w0 se|w0|ev|w0|k kstate|]; cbn [dispatch].
  - unfold handle_maprequest. destruct (allowed_window _ _) as [ok|];
      cbn [bind]; [|discriminate].
    destruct (ok =? 0); intros [= <-]; [left; now apply Hfr|].
    rewrite ws_at_arrange.
    change (ws_at (X _ (add_client w0 s)) i) with (ws_at (add_client w0 s) i).
    unfold add_client.
    destruct (ws_at_set_ws_at s (cur_ws s) (w0 :: ws_at s (cur_ws s)) i)
      as [-> | [Hi ->]]; [now left|].
    right. left. exists w0. split; [reflexivity|].
    now rewrite (ws_at_same_index s i (cur_ws s) Hi).
  - intros [= <-]. unfold handle_unmap.
    destruct (Hrm w0) as [H | H]; auto.
  - intros [= <-]. unfold handle_destroy.
    destruct (Hrm w0) as [H | H]; auto.
  - intros [= <-]. left. now apply Hfr.
  - intros [= <-]. now left.
  - destruct (Z.eqb_spec k XK_h) as [Ek|Ek].
    + subst k. cbn. intros [= <-]. unfold focus_prev.
      destruct (ws_at s (cur_ws s)) as [|c [|c' rest]] eqn:E; [now left..|].
      destruct (walk_to_last c (c' :: rest)) as [before l] eqn:Ew.
      apply walk_to_last_spec in Ew.
      rewrite ws_at_arrange.
      destruct (ws_at_set_ws_at s (cur_ws s) (l :: before) i)
        as [-> | [Hi ->]]; [now left|].
      right. right. right. exists kstate, before, l.
      rewrite (ws_at_same_index s i (cur_ws s) Hi), E. auto.
    + repeat match goal with
             | |- context [if ?b then _ else _] =>
                 lazymatch b with
                 | k =? XK_h => fail
                 | _ => destruct b
                 end
             end;
        try (apply Z.eqb_neq in Ek; rewrite Ek);
        intros [= <-]; left;
        try (apply Hfr; first [ reflexivity | apply change_ws_ws ]).
      rewrite focus_next_arrange. apply Hfr, arrange_ws.
  - intros [= <-]. now left.
Qed.

(** An index outside the range is refused. *)
Lemma change_ws_out_of_range idx s :
  idx < 0 \/ WORKSPACES <= idx -> change_ws idx s = s.
Proof.
  intros H. unfold change_ws.
  destruct (Z.ltb_spec idx 0); cbn [orb]; [reflexivity|].
  destruct (Z.geb_spec idx WORKSPACES); [reflexivity|lia].
Qed.

(** The notification handlers look in the current workspace only: a window
    destroyed while its workspace is hidden stays registered. *)
Example destroy_on_hidden_workspace_keeps_client :
  ws (exec [MapRequest 101; KeyPress XK_2 Mod4Mask; DestroyNotify 101]
        (Session.mada Session.kitty))
  = [[101]; []; []].
Proof. vm_compute. reflexivity. Qed.

End MadaWMFacts.

(** ** The tiling layout *)

Import X11 Session.

(** C1.  In src/madawm.c every column of [arrange], the last one included,
    is [screen_w / count] wide.  On the 1921 pixel wide screen the three
    windows get columns 640 wide at 0, 640 and 1280: the last column ends at
    1920 and the pixel column [1920, 1921) is left untiled, where the last
    column should have been [1921 - 640 * 2 = 641] wide.  (The README
    program tiles the whole width: [ReadmeFacts.arrange_partitions_screen].) *)
Theorem madawm_last_column_leaves_gap :
  MadaWM.ws mada_three = [[103; 102; 101]; []; []]
  /\ filter is_move (MadaWMModel.issued mada_two mada_three) =
       [XMoveResizeWindow 103 0 0 640 1080;
        XMoveResizeWindow 102 640 0 640 1080;
        XMoveResizeWindow 101 1280 0 640 1080]
  /\ 1280 + 640 < MadaWM.screen_w mada_three
  /\ MadaWM.screen_w mada_three - MadaWM.screen_w mada_three / 3 * (3 - 1)
     = 641.
Proof. repeat split; vm_compute; reflexivity. Qed.

(** ** The client registry *)

(** C2.  src/madawm.c registers a window again when a second map request
    arrives for it: after two requests for window 101 the list of workspace
    0 holds it twice.  (The README program ignores the second request and
    keeps every handle unique: [ReadmeFacts.maprequest_of_managed_ignored],
    [ReadmeFacts.reachable_handles_once].) *)
Theorem madawm_maprequest_registers_twice :
  MadaWM.ws mada_one = [[101]; []; []]
  /\ MadaWM.ws (MadaWMModel.exec [MapRequest 101] mada_one)
     = [[101; 101]; []; []].
Proof. split; vm_compute; reflexivity. Qed.

(** C3, as stated, fails: [add_client] does not append.  With window 101
    registered on workspace 0, adding window 102 gives the sequence
    [102; 101], not [101; 102]. *)
Lemma add_client_is_not_an_append :
  Readme.members 0 (Readme.clients (Readme.add_client 102 0 fixed_one))
  <> Readme.members 0 (Readme.clients fixed_one) ++ [102].
Proof. vm_compute. discriminate. Qed.

(** C3, amended.  In both programs [add_client] puts the new handle at the
    head of its workspace's sequence and leaves the other workspaces alone.
    Every event leaves a sequence as it was, or with the mapped window in
    front, or with one node unlinked and the others in their order; only
    [focus_prev] of src/madawm.c (Super+h) moves a node, the last one, to
    the front. *)
Theorem add_client_prepends
    (s s' : Readme.State) (m m' : MadaWM.State) (e f : XEvent)
    (w0 : Window) (ws i : Z) :
  Readme.dispatch e s = Ret s' ->
  MadaWM.dispatch f m = Ret m' ->
  (Z.to_nat (MadaWM.cur_ws m) < List.length (MadaWM.ws m))%nat ->
  (Readme.members ws (Readme.clients (Readme.add_client w0 ws s))
     = w0 :: Readme.members ws (Readme.clients s)
   /\ (forall ws', ws' <> ws ->
         Readme.members ws' (Readme.clients (Readme.add_client w0 ws s))
         = Readme.members ws' (Readme.clients s))
   /\ MadaWM.ws_at (MadaWM.add_client w0 m) (MadaWM.cur_ws m)
      = w0 :: MadaWM.ws_at m (MadaWM.cur_ws m))
  /\ (Readme.clients s' = Readme.clients s
      \/ (exists w1 ws1,
             e = MapRequest w1
             /\ Readme.clients s'
                = {| Readme.w := w1; Readme.workspace := ws1 |}
                  :: Readme.clients s)
      \/ (exists before c after,
             Readme.clients s = before ++ c :: after
             /\ Readme.clients s' = before ++ after))
  /\ (MadaWM.ws_at m' i = MadaWM.ws_at m i
      \/ (exists w1, f = MapRequest w1
                     /\ MadaWM.ws_at m' i = w1 :: MadaWM.ws_at m i)
      \/ (exists w1 before after,
             MadaWM.ws_at m i = before ++ w1 :: after
             /\ MadaWM.ws_at m' i = before ++ after)
      \/ (exists kstate before l,
             f = KeyPress XK_h kstate
             /\ MadaWM.ws_at m i = before ++ [l]
             /\ MadaWM.ws_at m' i = l :: before)).
Proof.
  intros Hr Hm Hcur. split; [|split].
  - destruct (ReadmeFacts.add_client_members w0 ws s) as [H1 H2].
    repeat split; auto. now apply MadaWMFacts.add_client_head.
  - now apply ReadmeFacts.dispatch_clients.
  - now apply MadaWMFacts.dispatch_lists.
Qed.

Lemma add_client_prepends_witness :
  Readme.members 0 (Readme.clients (Readme.add_client 102 0 fixed_one))
  = 102 :: Readme.members 0 (Readme.clients fixed_one).
Proof.
  refine (proj1 (proj1 (add_client_prepends fixed_one fixed_two mada_one
                          mada_two (MapRequest 102) (MapRequest 102)
                          102 0 0 _ _ _))).
  - vm_compute. reflexivity.
  - vm_compute. reflexivity.
  - vm_compute. lia.
Defined.

(** C8.  In src/madawm.c a destroy notification delivered twice is not
    absorbed when the window is registered twice (see C2): after two map
    requests for window 101 the first notification leaves [[101]] on
    workspace 0 and the second one empties it.  (In the README program the
    second delivery finds the registry as the first left it:
    [ReadmeFacts.handle_destroy_twice]; removing an absent handle is a no-op
    in both: [ReadmeFacts.remove_client_absent],
    [MadaWMFacts.mada_unlink_absent].) *)
Theorem madawm_second_destroy_removes_again :
  MadaWM.ws (MadaWMModel.exec
               [MapRequest 101; MapRequest 101; DestroyNotify 101]
               (mada kitty))
  = [[101]; []; []]
  /\ MadaWM.ws (MadaWMModel.exec
                  [MapRequest 101; MapRequest 101; DestroyNotify 101;
                   DestroyNotify 101]
                  (mada kitty))
     = [[]; []; []].
Proof. split; vm_compute; reflexivity. Qed.

(** ** Focus *)

(** C6.  [focus_next] of src/madawm.c moves nothing.  With the windows
    [102; 101] on the current workspace, one call and two calls leave the
    lists as they were, the input focus where it was ([PointerRoot]), and no
    [XSetInputFocus] among the requests: window 101 is never visited.  (In
    the README program K calls go through the other members in order and
    come back to the first: [ReadmeFacts.visited_cycle].) *)
Theorem madawm_focus_next_moves_nothing :
  MadaWM.ws_at mada_two (MadaWM.cur_ws mada_two) = [102; 101]
  /\ MadaWM.ws (MadaWM.focus_next mada_two) = MadaWM.ws mada_two
  /\ MadaWM.ws (MadaWM.focus_next (MadaWM.focus_next mada_two))
     = MadaWM.ws mada_two
  /\ input_focus (MadaWM.dpy (MadaWM.focus_next mada_two)) = PointerRoot
  /\ input_focus (MadaWM.dpy (MadaWM.focus_next (MadaWM.focus_next mada_two)))
     = PointerRoot
  /\ filter is_focus
       (requests (MadaWM.dpy (MadaWM.focus_next (MadaWM.focus_next mada_two))))
     = [].
Proof. repeat split; vm_compute; reflexivity. Qed.

(** C9.  [focus_next] of src/madawm.c takes the head of the current
    workspace's list out and [add_client] puts it back in front: the lists
    and the current workspace are as before, and the call is [arrange] on
    the unchanged state, so the tiling it computes is that of the same
    ordering. *)
Theorem madawm_focus_next_is_identity
    (s : MadaWM.State) (first : Window) (rest : list Window) :
  MadaWM.ws_at s (MadaWM.cur_ws s) = first :: rest ->
  MadaWM.ws_at (MadaWM.remove_client_from_ws first (MadaWM.cur_ws s) s)
    (MadaWM.cur_ws s) = rest
  /\ MadaWM.add_client first
       (MadaWM.remove_client_from_ws first (MadaWM.cur_ws s) s) = s
  /\ MadaWM.focus_next s = MadaWM.arrange s
  /\ MadaWM.ws (MadaWM.focus_next s) = MadaWM.ws s
  /\ MadaWM.cur_ws (MadaWM.focus_next s) = MadaWM.cur_ws s
  /\ MadaWMModel.moves (MadaWM.focus_next s) =
       MadaWMModel.moves s ++
       MadaWMModel.equal_columns (MadaWM.screen_h s)
         (Z.quot (MadaWM.screen_w s) (Z.of_nat (List.length (first :: rest))))
         (first :: rest) 0.
Proof.
  intros H. pose proof (MadaWMFacts.ws_at_inhabited _ _ _ _ H) as Hlt.
  rewrite MadaWMFacts.focus_next_arrange.
  rewrite MadaWMFacts.arrange_ws, MadaWMFacts.mada_arrange_cur_ws.
  repeat split.
  - unfold MadaWM.remove_client_from_ws, MadaWM.ws_at, MadaWM.set_ws_at.
    cbn [MadaWM.ws MadaWM.with_ws]. rewrite MadaWMFacts.nth_store by exact Hlt.
    unfold MadaWM.ws_at in H. rewrite H. cbn [MadaWM.unlink].
    now rewrite Z.eqb_refl.
  - now apply MadaWMFacts.readd_head with (rest := rest).
  - rewrite MadaWMFacts.arrange_moves, H. reflexivity.
Qed.

Lemma madawm_focus_next_is_identity_witness :
  MadaWM.focus_next mada_two = MadaWM.arrange mada_two
  /\ MadaWM.ws (MadaWM.focus_next mada_two) = [[102; 101]; []; []].
Proof.
  destruct (madawm_focus_next_is_identity mada_two 102 [101])
    as (_ & _ & H3 & H4 & _).
  - vm_compute. reflexivity.
  - split; [exact H3|]. rewrite H4. vm_compute. reflexivity.
Defined.

(** ** Workspaces *)

(** C7.  [change_ws] of src/madawm.c has no test for the current
    workspace.  Asked for workspace 0 while on workspace 0 it unmaps window
    101, tiles it and maps it again; when the window was unmapped (the
    client had withdrawn it), it ends up mapped.  (The README program
    returns at once: [ReadmeFacts.change_ws_noop]; both return at once for
    an index outside the range.) *)
Theorem madawm_change_ws_to_current_remaps :
  MadaWM.cur_ws mada_one = 0
  /\ MadaWMModel.issued mada_one (MadaWM.change_ws 0 mada_one)
     = [XUnmapWindow 101; XMoveResizeWindow 101 0 0 1921 1080;
        XMapRaised 101; XFlush]
  /\ mapped (MadaWM.dpy mada_one_withdrawn) 101 = false
  /\ mapped (MadaWM.dpy (MadaWM.change_ws 0 mada_one_withdrawn)) 101 = true.
Proof. repeat split; vm_compute; reflexivity. Qed.

(** ** Unmap and destroy notifications *)

(** C4, as stated, fails: an [UnmapNotify] that was not sent with
    [send_event] is ignored by the README program.  Window 101 is still
    registered after it. *)
Lemma unmap_without_send_event_keeps_the_client :
  In 101 (ReadmeModel.handles (Readme.handle_unmap 101 false fixed_one)).
Proof. vm_compute. left. reflexivity. Qed.

(** C4, amended.  In the README program, in every reachable state, a
    [DestroyNotify] and an [UnmapNotify] sent with [send_event] unlink the
    window from the registry, whatever its workspace, and run [arrange] on
    the result: the window is registered no more, the input focus is on the
    head of the current workspace (the root window when it is empty) and so
    not on the removed window.  An [UnmapNotify] without [send_event]
    changes nothing. *)
Theorem removal_refocuses (s : Readme.State) (w0 : Window) :
  ReadmeModel.Reachable s ->
  Readme.dispatch (UnmapNotify w0 false) s = Ret s
  /\ Readme.dispatch (UnmapNotify w0 true) s
     = Ret (Readme.arrange (Readme.remove_client w0 s))
  /\ Readme.dispatch (DestroyNotify w0) s
     = Ret (Readme.arrange (Readme.remove_client w0 s))
  /\ Readme.clients (Readme.arrange (Readme.remove_client w0 s))
     = Readme.unlink w0 (Readme.clients s)
  /\ ~ In w0 (ReadmeModel.handles (Readme.arrange (Readme.remove_client w0 s)))
  /\ ReadmeModel.head_focused (Readme.arrange (Readme.remove_client w0 s))
  /\ (w0 <> Readme.root s ->
      input_focus (Readme.dpy (Readme.arrange (Readme.remove_client w0 s)))
      <> w0).
Proof.
  intros Hr. apply ReadmeFacts.reachable_registry_ok in Hr.
  destruct Hr as [Hnd Hreal _ _].
  destruct (ReadmeFacts.unlink_NoDup w0 (Readme.clients s) Hnd) as [_ Hout].
  assert (Hreal' : ~ In XNone (ReadmeModel.handles (Readme.remove_client w0 s))).
  { intros F. apply Hreal. eapply ReadmeFacts.unlink_handles_subset, F. }
  assert (Hc : Readme.clients (Readme.arrange (Readme.remove_client w0 s))
               = Readme.unlink w0 (Readme.clients s))
    by now rewrite ReadmeFacts.arrange_clients.
  repeat split; auto.
  - unfold ReadmeModel.handles. now rewrite Hc.
  - now apply ReadmeFacts.arrange_head_focused.
  - intros Hroot. rewrite ReadmeFacts.arrange_input_focus by exact Hreal'.
    cbn [Readme.remove_client Readme.cur_ws Readme.root Readme.clients
         Readme.with_clients].
    destruct (Readme.members (Readme.cur_ws s)
                (Readme.unlink w0 (Readme.clients s))) as [|h l] eqn:Em;
      cbn [ReadmeModel.focus_target]; [congruence|].
    intros ->. apply Hout.
    apply ReadmeFacts.members_handles with (ws := Readme.cur_ws s).
    rewrite Em. now left.
Qed.

Lemma removal_refocuses_witness :
  Readme.dispatch (DestroyNotify 102) fixed_two
  = Ret (Readme.arrange (Readme.remove_client 102 fixed_two))
  /\ input_focus (Readme.dpy (Readme.arrange (Readme.remove_client 102 fixed_two)))
     = 101.
Proof.
  destruct (removal_refocuses fixed_two 102) as (_ & _ & H & _).
  - apply ReadmeFacts.reachable_exec; [apply ReadmeModel.reach_initial|].
    repeat constructor; vm_compute; discriminate.
  - split; [exact H|]. vm_compute. reflexivity.
Defined.

(** ** Focus after arrange *)

(** C10, as stated, fails for the events the README program ignores.  With
    the sequence [102; 101] and the focus moved to 101 by Super+l, an
    [UnmapNotify] without [send_event], a second map request for a managed
    window, and a switch to the current workspace each leave the focus on
    101, which is not the head. *)
Lemma ignored_events_leave_focus_off_the_head :
  ReadmeModel.Reachable fixed_two_cycled
  /\ ~ ReadmeModel.head_focused
         (ReadmeModel.exec [UnmapNotify 77 false] fixed_two_cycled)
  /\ ~ ReadmeModel.head_focused
         (ReadmeModel.exec [MapRequest 101] fixed_two_cycled)
  /\ ~ ReadmeModel.head_focused
         (ReadmeModel.exec [Super_1] fixed_two_cycled).
Proof.
  split.
  - apply ReadmeFacts.reachable_exec; [apply ReadmeModel.reach_initial|].
    repeat constructor; vm_compute; discriminate.
  - repeat split; vm_compute; discriminate.
Qed.

(** C10, amended.  In the README program, in every reachable state, a run
    of [arrange] leaves the input focus on the first client of the current
    workspace in list order, on the root window when there is none.  So it
    is after the events whose handler runs [arrange]: a destroy
    notification, an unmap notification sent with [send_event], a switch to
    another valid workspace, and a map request that is accepted, which puts
    the new window at the head and focuses it.  An unmap notification
    without [send_event], a map request for a managed window, a rejected
    map request and a switch to the current or to an invalid workspace do
    not run [arrange]. *)
Theorem arrange_focuses_head (s : Readme.State) :
  ReadmeModel.Reachable s ->
  ReadmeModel.head_focused (Readme.arrange s)
  /\ (forall w0,
        ReadmeModel.head_focused (Readme.handle_destroy w0 s)
        /\ ReadmeModel.head_focused (Readme.handle_unmap w0 true s)
        /\ Readme.handle_unmap w0 false s = s)
  /\ (forall ws,
        0 <= ws < Readme.WORKSPACES -> ws <> Readme.cur_ws s ->
        Readme.cur_ws (Readme.change_ws ws s) = ws
        /\ ReadmeModel.head_focused (Readme.change_ws ws s))
  /\ (forall ws,
        ws = Readme.cur_ws s \/ ws < 0 \/ Readme.WORKSPACES <= ws ->
        Readme.change_ws ws s = s)
  /\ (forall w0 s',
        w0 <> XNone -> Readme.handle_maprequest w0 s = Ret s' ->
        (In w0 (ReadmeModel.handles s) /\ s' = s)
        \/ (~ In w0 (ReadmeModel.handles s)
            /\ Readme.get_window_workspace (Readme.dpy s) w0 = Ret (-1)
            /\ s' = Readme.X (XKillClient w0) s)
        \/ (~ In w0 (ReadmeModel.handles s)
            /\ (exists ws,
                   Readme.get_window_workspace (Readme.dpy s) w0 = Ret ws
                   /\ 0 <= ws < Readme.WORKSPACES)
            /\ ReadmeModel.head_focused s'
            /\ input_focus (Readme.dpy s') = w0
            /\ Readme.members (Readme.cur_ws s') (Readme.clients s')
               = w0 :: Readme.members (Readme.cur_ws s') (Readme.clients s))).
Proof.
  intros Hr. apply ReadmeFacts.reachable_registry_ok in Hr.
  destruct Hr as [Hnd Hreal _ _].
  assert (Hrm : forall w0,
             ~ In XNone (ReadmeModel.handles (Readme.remove_client w0 s))).
  { intros w0 F. apply Hreal. eapply ReadmeFacts.unlink_handles_subset, F. }
  split; [now apply ReadmeFacts.arrange_head_focused|].
  split; [|split; [|split]].
  - intros w0. repeat split; try apply ReadmeFacts.arrange_head_focused; auto.
  - intros ws Hws Hne. unfold Readme.change_ws.
    replace (ws <? 0) with false by (symmetry; apply Z.ltb_ge; lia).
    replace (ws >=? Readme.WORKSPACES) with false
      by (symmetry; rewrite Z.geb_leb; apply Z.leb_gt; lia).
    replace (ws =? Readme.cur_ws s) with false
      by (symmetry; now apply Z.eqb_neq).
    cbn [orb]. split.
    + now rewrite ReadmeFacts.arrange_cur_ws.
    + now apply ReadmeFacts.arrange_head_focused.
  - intros ws Hws. now apply ReadmeFacts.change_ws_noop.
  - intros w0 s' Hw0 Hm.
    destruct (ReadmeFacts.handle_maprequest_cases w0 s s' Hm)
      as [H | [(H0 & H1 & H2) | (ws & t & Hnew & Hws & Hg & Hc & Hcur & Hroot & ->)]];
      [now left|right; left; auto|].
    right. right.
    assert (Ht : ~ In XNone (ReadmeModel.handles t)).
    { unfold ReadmeModel.handles. rewrite Hc. cbn. intros [F|F]; auto. }
    split; [exact Hnew|]. split; [exists ws; auto|].
    split; [now apply ReadmeFacts.arrange_head_focused|].
    rewrite ReadmeFacts.arrange_input_focus by exact Ht.
    rewrite ReadmeFacts.arrange_clients, ReadmeFacts.arrange_cur_ws, Hc, Hcur.
    unfold Readme.members. cbn [filter Readme.workspace].
    rewrite Z.eqb_refl. cbn [map Readme.w ReadmeModel.focus_target]. auto.
Qed.

Lemma arrange_focuses_head_witness :
  ReadmeModel.head_focused (Readme.arrange fixed_two)
  /\ input_focus (Readme.dpy (Readme.arrange fixed_two)) = 102.
Proof.
  destruct (arrange_focuses_head fixed_two) as (H & _).
  - apply ReadmeFacts.reachable_exec; [apply ReadmeModel.reach_initial|].
    repeat constructor; vm_compute; discriminate.
  - split; [exact H|]. vm_compute. reflexivity.
Defined.

(** ** Further facts about the README program *)

Module ReadmeMore.
Import X11 Readme ReadmeModel ReadmeObs.

(** *** strcasecmp and the policy filter *)

Lemma uchar_inj c d : uchar c = uchar d -> c = d.
Proof.
  unfold uchar. intros H. apply N2Z.inj in H.
  rewrite <- (ascii_N_embedding c), <- (ascii_N_embedding d). now f_equal.
Qed.

Lemma tolower_nul c : c <> "000"%char -> uchar (tolower c) <> 0.
Proof.
  intros Hc H. apply Hc.
  destruct c as [[] [] [] [] [] [] [] []]; vm_compute in H; congruence.
Qed.

Lemma strcasecmp_lower a : forall b,
  lower a = lower b -> strcasecmp a b = 0.
Proof.
  induction a as [|c a IH]; intros [|d b]; cbn; try discriminate; auto.
  intros [= Hc Hr]. rewrite Hc, Z.eqb_refl. now apply IH.
Qed.

Lemma strcasecmp_zero a : forall b,
  nul_free a -> nul_free b -> strcasecmp a b = 0 -> lower a = lower b.
Proof.
  induction a as [|c a IH]; intros [|d b]; cbn; auto.
  - intros _ [Hd _] H. exfalso. apply (tolower_nul d Hd). lia.
  - intros [Hc _] _ H. exfalso. now apply (tolower_nul c Hc).
  - intros [_ Ha] [_ Hb].
    destruct (Z.eqb_spec (uchar (tolower c)) (uchar (tolower d))) as [E|E].
    + intros H. apply uchar_inj in E. rewrite E. f_equal. now apply IH.
    + intros H. lia.
Qed.

Lemma nul_free_classes :
  Forall nul_free (terminal_classes ++ browser_classes ++ MadaWM.allowed_classes).
Proof. repeat constructor; discriminate. Qed.

(** The loop of [match_class] as a search: its answer is 1 exactly when an
    entry compares equal to a hint that is set. *)
Lemma match_loop_existsb ch ps :
  match_loop ch ps =
  Ret (if existsb
            (fun p =>
               match res_class ch with
               | Some c => strcasecmp c p =? 0
               | None => false
               end
               || match res_name ch with
                  | Some n => strcasecmp n p =? 0
                  | None => false
                  end) ps
       then 1 else 0).
Proof.
  induction ps as [|p ps IH]; cbn [match_loop existsb]; [reflexivity|].
  rewrite IH. destruct ch as [[n|] [c|]]; cbn;
    repeat match goal with
           | |- context [if ?b then _ else _] => destruct b; cbn
           end; reflexivity.
Qed.

Lemma match_class_hit d w0 classes :
  match_class d w0 classes = Ret 1 <->
  exists ch x p,
    class_hint d w0 = Some ch
    /\ (res_class ch = Some x \/ res_name ch = Some x)
    /\ In p classes /\ strcasecmp x p = 0.
Proof.
  unfold match_class. destruct (class_hint d w0) as [ch|].
  - assert (Hl : match_loop ch classes = Ret 1 <->
                 exists x p, (res_class ch = Some x \/ res_name ch = Some x)
                             /\ In p classes /\ strcasecmp x p = 0).
    { rewrite match_loop_existsb.
      match goal with |- context [existsb ?f classes] =>
        destruct (existsb f classes) eqn:E end.
      - split; [intros _|reflexivity].
        apply existsb_exists in E. destruct E as (p & Hin & Hp).
        apply orb_true_iff in Hp. destruct Hp as [Hp|Hp].
        + destruct (res_class ch) as [c|]; [|discriminate].
          exists c, p. apply Z.eqb_eq in Hp. auto.
        + destruct (res_name ch) as [n|]; [|discriminate].
          exists n, p. apply Z.eqb_eq in Hp. auto.
      - split; [discriminate|]. intros (x & p & Hx & Hin & Hp). exfalso.
        assert (existsb
                  (fun p =>
                     match res_class ch with
                     | Some c => strcasecmp c p =? 0
                     | None => false
                     end
                     || match res_name ch with
                        | Some n => strcasecmp n p =? 0
                        | None => false
                        end) classes = true) as Ht.
        { apply existsb_exists. exists p. split; [exact Hin|].
          apply orb_true_iff. destruct Hx as [-> | ->];
            [left|right]; now apply Z.eqb_eq. }
        congruence. }
    destruct (is_set (res_class ch) || is_set (res_name ch)) eqn:Es.
    + rewrite Hl. split.
      * intros (x & p & H). exists ch, x, p. tauto.
      * intros (ch' & x & p & [= <-] & H). eauto.
    + split; [discriminate|]. intros (ch' & x & p & [= <-] & Hx & _).
      apply orb_false_iff in Es. destruct Es as [E1 E2].
      destruct Hx as [Hx|Hx]; rewrite Hx in *; discriminate.
  - split; [discriminate|]. intros (ch & x & p & H & _). discriminate.
Qed.

(** *** Mapped state *)

Lemma mapped_X r s x :
  mapped (dpy (X r s)) x =
  match r with
  | XMapWindow w0 | XMapRaised w0 => if x =? w0 then true else mapped (dpy s) x
  | XUnmapWindow w0 => if x =? w0 then false else mapped (dpy s) x
  | _ => mapped (dpy s) x
  end.
Proof. destruct r; reflexivity. Qed.

Lemma unfocus_all_mapped cs : forall s,
  mapped (dpy (fold_left
                 (fun st c =>
                    if workspace c =? cur_ws st
                    then set_border (w c) BORDER_UNFOCUS st else st) cs s))
  = mapped (dpy s).
Proof.
  induction cs as [|c cs IH]; intros s; cbn [fold_left]; [reflexivity|].
  rewrite IH. now destruct (workspace c =? cur_ws s).
Qed.

Lemma set_focus_mapped w0 s : mapped (dpy (set_focus w0 s)) = mapped (dpy s).
Proof.
  unfold set_focus. destruct (w0 =? XNone); [reflexivity|]. cbv zeta.
  match goal with |- context [if ?b then _ else _] => destruct b end;
    cbn [X with_dpy dpy set_border issue log set_input_focus mapped];
    apply unfocus_all_mapped.
Qed.

Lemma arrange_loop_mapped cs : forall count tile_w i focused s x,
  NoDup (map w cs) ->
  mapped (dpy (snd (arrange_loop cs count tile_w i focused s))) x =
  match find_client x cs with
  | Some c => workspace c =? cur_ws s
  | None => mapped (dpy s) x
  end.
Proof.
  induction cs as [|c cs IH]; intros count tile_w i focused s x Hnd;
    cbn [arrange_loop find_client]; [reflexivity|].
  inversion Hnd as [|? ? Hc Hcs]; subst.
  assert (Hx : w c = x -> find_client x cs = None).
  { intros <-. now apply ReadmeFacts.find_client_none. }
  destruct (workspace c =? cur_ws s) eqn:Ews; rewrite IH by exact Hcs;
    cbn [cur_ws X with_dpy];
    destruct (Z.eqb_spec (w c) x) as [E|E].
  - rewrite (Hx E). rewrite !mapped_X. subst x. now rewrite Z.eqb_refl.
  - destruct (find_client x cs); [reflexivity|].
    rewrite !mapped_X.
    destruct (Z.eqb_spec x (w c)); [congruence|reflexivity].
  - rewrite (Hx E). rewrite mapped_X. subst x. now rewrite Z.eqb_refl.
  - destruct (find_client x cs); [reflexivity|].
    rewrite mapped_X.
    destruct (Z.eqb_spec x (w c)); [congruence|reflexivity].
Qed.

Lemma arrange_empty s :
  count_cur s = 0 -> arrange s = X (XSetInputFocus (root s)) s.
Proof. intros H. unfold arrange. rewrite H. reflexivity. Qed.

(** After [arrange] on a workspace that has clients, a registered window is
    mapped exactly when its workspace is the current one; other windows are
    as they were. *)
Lemma arrange_mapped s x :
  NoDup (handles s) -> count_cur s <> 0 ->
  mapped (dpy (arrange s)) x =
  match find_client x (clients s) with
  | Some c => workspace c =? cur_ws s
  | None => mapped (dpy s) x
  end.
Proof.
  intros Hnd Hc. unfold arrange.
  replace (count_cur s =? 0) with false by (symmetry; now apply Z.eqb_neq).
  cbv zeta.
  pose proof (arrange_loop_mapped (clients s) (count_cur s)
                (Z.quot (screen_w s) (count_cur s)) 0 None s x Hnd) as Hl.
  destruct (arrange_loop _ _ _ _ _ _) as [focused s1]. cbn [snd] in Hl.
  rewrite mapped_X. destruct focused; [rewrite set_focus_mapped|]; exact Hl.
Qed.

(** *** Border colours *)

Lemma requests_X r s : requests (dpy (X r s)) = requests (dpy s) ++ [r].
Proof. destruct r; reflexivity. Qed.

Lemma border_of_X r s x :
  border_of (requests (dpy (X r s))) x
  = border_step x (border_of (requests (dpy s)) x) r.
Proof. rewrite requests_X. unfold border_of. now rewrite fold_left_app. Qed.

Lemma unfocus_all_border cs : forall s x,
  border_of (requests (dpy (fold_left
                 (fun st c =>
                    if workspace c =? cur_ws st
                    then set_border (w c) BORDER_UNFOCUS st else st) cs s))) x
  = if existsb (fun c => (workspace c =? cur_ws s) && (w c =? x)) cs
    then Some BORDER_UNFOCUS
    else border_of (requests (dpy s)) x.
Proof.
  induction cs as [|c cs IH]; intros s x; cbn [fold_left existsb];
    [reflexivity|].
  rewrite IH.
  destruct (workspace c =? cur_ws s) eqn:Ews; cbn [andb orb];
    [|reflexivity].
  unfold set_border. cbn [cur_ws X with_dpy].
  destruct (existsb _ cs); [now rewrite orb_true_r|].
  rewrite orb_false_r, border_of_X. cbn [border_step]. reflexivity.
Qed.

Lemma set_focus_border w0 s x :
  w0 <> XNone ->
  border_of (requests (dpy (set_focus w0 s))) x
  = if w0 =? x then Some BORDER_FOCUS
    else if existsb (fun c => (workspace c =? cur_ws s) && (w c =? x))
              (clients s)
    then Some BORDER_UNFOCUS
    else border_of (requests (dpy s)) x.
Proof.
  intros Hw. unfold set_focus.
  replace (w0 =? XNone) with false by (symmetry; now apply Z.eqb_neq).
  cbv zeta.
  match goal with |- context [if supports_protocol ?a ?b ?c then _ else _] =>
    destruct (supports_protocol a b c) end;
    unfold set_border; rewrite !border_of_X; cbn [border_step];
    rewrite unfocus_all_border; reflexivity.
Qed.

Lemma arrange_loop_border cs : forall count tile_w i focused s x,
  border_of (requests (dpy (snd (arrange_loop cs count tile_w i focused s)))) x
  = border_of (requests (dpy s)) x.
Proof.
  induction cs as [|c cs IH]; intros count tile_w i focused s x;
    cbn [arrange_loop]; [reflexivity|].
  destruct (workspace c =? cur_ws s); rewrite IH, !border_of_X; reflexivity.
Qed.

Lemma member_existsb ws cs x :
  In x (members ws cs) ->
  existsb (fun c => (workspace c =? ws) && (w c =? x)) cs = true.
Proof.
  unfold members. rewrite in_map_iff. intros (c & E & Hin).
  apply filter_In in Hin. destruct Hin as [Hin Hws].
  apply existsb_exists. exists c. split; [exact Hin|].
  now rewrite Hws, E, Z.eqb_refl.
Qed.

(** After [arrange] the head of the current workspace has the focus colour
    and every other member the unfocused colour. *)
Lemma arrange_border s h rest x :
  ~ In XNone (handles s) ->
  members (cur_ws s) (clients s) = h :: rest ->
  In x (h :: rest) ->
  border_of (requests (dpy (arrange s))) x
  = Some (if x =? h then BORDER_FOCUS else BORDER_UNFOCUS).
Proof.
  intros Hreal Hm Hx. unfold arrange.
  assert (Hc : count_cur s <> 0).
  { unfold count_cur. unfold members in Hm.
    destruct (filter _ (clients s)); [discriminate|]. cbn. lia. }
  replace (count_cur s =? 0) with false by (symmetry; now apply Z.eqb_neq).
  cbv zeta.
  pose proof (ReadmeFacts.arrange_loop_focused (clients s) (count_cur s)
                (Z.quot (screen_w s) (count_cur s)) 0 None s (Z.le_refl 0))
    as Hf.
  pose proof (ReadmeFacts.arrange_loop_framed (clients s) (count_cur s)
                (Z.quot (screen_w s) (count_cur s)) 0 None s s
                (ReadmeFacts.framed_refl s)) as Hfr.
  pose proof (arrange_loop_border (clients s) (count_cur s)
                (Z.quot (screen_w s) (count_cur s)) 0 None s x) as Hb.
  destruct (arrange_loop _ _ _ _ _ _) as [focused s1].
  cbn [fst snd] in Hf, Hfr, Hb. unfold members in Hm.
  destruct (filter (fun c => workspace c =? cur_ws s) (clients s))
    as [|c m] eqn:Em; [discriminate|].
  cbn [Z.eqb] in Hf. subst focused. cbn [map] in Hm.
  injection Hm as Hh Hrest.
  assert (Hne : w c <> XNone).
  { intros E. apply Hreal. unfold handles. rewrite <- E. apply in_map.
    assert (In c (filter (fun c => workspace c =? cur_ws s) (clients s)))
      as Hin by (rewrite Em; now left).
    apply filter_In in Hin. tauto. }
  rewrite border_of_X. cbn [border_step].
  rewrite set_focus_border by exact Hne.
  rewrite (ReadmeFacts.framed_clients _ _ Hfr),
    (ReadmeFacts.framed_cur_ws _ _ Hfr), Hb, Hh.
  rewrite (Z.eqb_sym h x). destruct (x =? h); [reflexivity|].
  rewrite member_existsb; [reflexivity|].
  unfold members. rewrite Em. cbn [map]. now rewrite Hh, Hrest.
Qed.

(** *** focus_prev *)

Lemma focus_prev_loop_found cs : forall ws fw x prev last,
  focus_prev_loop cs ws fw (Some x) prev last =
  (prev,
   fold_left (fun _ c => Some c) (filter (fun c => workspace c =? ws) cs) last).
Proof.
  induction cs as [|c cs IH]; intros ws fw x prev last;
    cbn [focus_prev_loop filter]; [reflexivity|].
  destruct (workspace c =? ws); cbn [negb fold_left]; [|apply IH].
  destruct (w c =? fw); cbn [is_set]; apply IH.
Qed.

Lemma fold_last_map (m : list Client) : forall last,
  option_map w (fold_left (fun _ c => Some c) m last)
  = fold_left (fun _ x => Some x) (map w m) (option_map w last).
Proof.
  induction m as [|c m IH]; intros last; cbn [fold_left map]; [reflexivity|].
  now rewrite IH.
Qed.

Lemma focus_prev_loop_search cs : forall ws fw prev last,
  option_map w (fst (focus_prev_loop cs ws fw None prev last))
    = prev_from fw (members ws cs) (option_map w prev)
  /\ option_map w (snd (focus_prev_loop cs ws fw None prev last))
     = fold_left (fun _ x => Some x) (members ws cs) (option_map w last).
Proof.
  unfold members.
  induction cs as [|c cs IH]; intros ws fw prev last;
    cbn [focus_prev_loop filter]; [now split|].
  destruct (workspace c =? ws); cbn [negb]; [|apply IH].
  cbn [map prev_from fold_left]. destruct (w c =? fw).
  - rewrite focus_prev_loop_found. cbn [fst snd]. split; [reflexivity|].
    apply fold_last_map.
  - cbn [is_set]. apply IH.
Qed.

Lemma fold_last (l : list Window) : forall acc d,
  fold_left (fun _ x => Some x) l acc
  = match l with [] => acc | _ => Some (last l d) end.
Proof.
  induction l as [|a l IH]; intros acc d; [reflexivity|].
  cbn [fold_left]. rewrite (IH _ d). destruct l; reflexivity.
Qed.

Lemma focus_prev_spec s :
  focus_prev s =
  match members (cur_ws s) (clients s) with
  | [] => s
  | l => set_focus (prev_window (input_focus (dpy s)) l) s
  end.
Proof.
  unfold focus_prev, prev_window.
  destruct (focus_prev_loop_search (clients s) (cur_ws s)
              (input_focus (dpy s)) None None) as [H1 H2].
  destruct (focus_prev_loop _ _ _ _ _ _) as [prev last].
  cbn [fst snd option_map] in H1, H2.
  rewrite (fold_last _ _ XNone) in H2.
  destruct (members (cur_ws s) (clients s)) as [|a l] eqn:Em.
  - cbn in H1. destruct prev; [discriminate|]. destruct last; [discriminate|].
    reflexivity.
  - rewrite <- H1. destruct prev as [p|]; [reflexivity|].
    destruct last as [x|]; [|discriminate]. cbn in H2.
    injection H2 as H2. now rewrite H2.
Qed.

Lemma prev_from_nth l : forall i prev,
  NoDup l -> (i < List.length l)%nat ->
  prev_from (nth i l XNone) l prev
  = match i with O => prev | S j => Some (nth j l XNone) end.
Proof.
  induction l as [|c l IH]; intros i prev Hnd Hi; cbn in Hi; [lia|].
  inversion Hnd as [|? ? Hc Hl]; subst.
  destruct i as [|j]; cbn [nth prev_from].
  - now rewrite Z.eqb_refl.
  - destruct (Z.eqb_spec c (nth j l XNone)) as [E|E].
    + exfalso. apply Hc. rewrite E. apply nth_In. lia.
    + rewrite IH by (auto; lia). destruct j; reflexivity.
Qed.

Lemma prev_from_absent fw l : forall prev,
  ~ In fw l ->
  prev_from fw l prev = match l with [] => prev | _ => Some (last l XNone) end.
Proof.
  induction l as [|c l IH]; intros prev H; [reflexivity|].
  cbn [prev_from]. destruct (Z.eqb_spec c fw) as [E|E].
  - exfalso. apply H. now left.
  - rewrite IH by (intros F; apply H; now right). destruct l; reflexivity.
Qed.

Lemma successor_absent fw l : ~ In fw l -> successor fw l = None.
Proof.
  induction l as [|c l IH]; intros H; [reflexivity|].
  cbn [successor]. destruct (Z.eqb_spec c fw) as [E|E].
  - exfalso. apply H. now left.
  - apply IH. intros F. apply H. now right.
Qed.

Lemma last_nth (l : list Window) :
  l <> [] -> last l XNone = nth (List.length l - 1) l XNone.
Proof.
  induction l as [|a l IH]; [congruence|]. intros _.
  destruct l as [|b l]; [reflexivity|].
  change (last (a :: b :: l) XNone) with (last (b :: l) XNone).
  rewrite IH by discriminate. cbn [List.length].
  replace (S (S (List.length l)) - 1)%nat with (S (List.length l)) by lia.
  replace (S (List.length l) - 1)%nat with (List.length l) by lia.
  reflexivity.
Qed.

Lemma set_focus_member s l x :
  ~ In XNone (handles s) ->
  members (cur_ws s) (clients s) = l -> In x l ->
  input_focus (dpy (set_focus x s)) = x.
Proof.
  intros Hreal Hm Hx. rewrite ReadmeFacts.set_focus_input_focus.
  destruct (Z.eqb_spec x XNone) as [E|E]; [|reflexivity].
  exfalso. apply Hreal. unfold handles.
  apply ReadmeFacts.members_handles with (ws := cur_ws s).
  rewrite Hm, <- E. exact Hx.
Qed.

(** One call of [focus_prev]: the focus moves to the predecessor of the
    focused member, and from the first member to the last. *)
Lemma focus_prev_step s i :
  registry_ok s ->
  (i < List.length (members (cur_ws s) (clients s)))%nat ->
  input_focus (dpy s) = nth i (members (cur_ws s) (clients s)) XNone ->
  input_focus (dpy (focus_prev s)) =
  match i with
  | O => last (members (cur_ws s) (clients s)) XNone
  | S j => nth j (members (cur_ws s) (clients s)) XNone
  end.
Proof.
  intros [Hnd Hreal _ _] Hi Hf. rewrite focus_prev_spec.
  pose proof (ReadmeFacts.members_NoDup (cur_ws s) (clients s) Hnd) as Hm.
  destruct (members (cur_ws s) (clients s)) as [|a l] eqn:El;
    [cbn in Hi; lia|].
  unfold prev_window. rewrite Hf, prev_from_nth by assumption.
  destruct i as [|j]; apply set_focus_member with (l := a :: l); auto.
  - rewrite last_nth by discriminate. apply nth_In. cbn. lia.
  - apply nth_In. lia.
Qed.

(** *** The registry as a finite map *)

Lemma find_client_unlink w0 cs : forall x,
  NoDup (map w cs) ->
  find_client x (unlink w0 cs) = if x =? w0 then None else find_client x cs.
Proof.
  induction cs as [|c cs IH]; intros x Hnd; cbn [unlink find_client].
  - now destruct (x =? w0).
  - inversion Hnd as [|? ? Hc Hcs]; subst.
    destruct (Z.eqb_spec (w c) w0) as [E|E].
    + destruct (Z.eqb_spec x w0) as [Ex|Ex].
      * subst. apply ReadmeFacts.find_client_none. congruence.
      * destruct (Z.eqb_spec (w c) x); [congruence|reflexivity].
    + cbn [find_client]. destruct (Z.eqb_spec (w c) x) as [Ex|Ex].
      * destruct (Z.eqb_spec x w0); [congruence|reflexivity].
      * now apply IH.
Qed.

Lemma unlink_length w0 cs :
  In w0 (map w cs) -> S (List.length (unlink w0 cs)) = List.length cs.
Proof.
  induction cs as [|c cs IH]; cbn [map In unlink List.length]; [tauto|].
  destruct (Z.eqb_spec (w c) w0) as [E|E]; [reflexivity|].
  intros [H|H]; [contradiction|]. cbn [List.length]. now rewrite IH.
Qed.

(** *** The event loop *)

Lemma run_stopped evs s : running s = false -> run evs s = Ret s.
Proof. intros H. destruct evs; cbn [run]; [reflexivity|now rewrite H]. Qed.

Lemma run_total evs : forall s, exists s', run evs s = Ret s'.
Proof.
  induction evs as [|e evs IH]; intros s; cbn [run]; [eauto|].
  destruct (running s); [|eauto].
  destruct (ReadmeFacts.dispatch_total e s) as [s' ->]. cbn [bind]. apply IH.
Qed.

Lemma run_app a : forall b s, run (a ++ b) s
  = bind (run a s) (fun s' => run b s').
Proof.
  induction a as [|e a IH]; intros b s; cbn [app run bind]; [reflexivity|].
  destruct (running s) eqn:Er.
  - destruct (dispatch e s) as [s'|]; cbn [bind]; [apply IH|reflexivity].
  - cbn [bind]. now rewrite run_stopped.
Qed.

Lemma masked_state st lock :
  Z.land lock (Z.lnot (Z.lor LockMask Mod2Mask)) = 0 ->
  Z.land (Z.lor st lock) (Z.lnot (Z.lor LockMask Mod2Mask))
  = Z.land st (Z.lnot (Z.lor LockMask Mod2Mask)).
Proof.
  intros H. now rewrite Z.land_lor_distr_l, H, Z.lor_0_r.
Qed.

Lemma find_client_in cs : forall c,
  NoDup (map w cs) -> In c cs -> find_client (w c) cs = Some c.
Proof.
  induction cs as [|c' cs IH]; intros c Hnd Hin; [contradiction|].
  inversion Hnd as [|? ? Hc Hcs]; subst. cbn [find_client].
  destruct Hin as [-> | Hin]; [now rewrite Z.eqb_refl|].
  destruct (Z.eqb_spec (w c') (w c)) as [E|E]; [|now apply IH].
  exfalso. apply Hc. rewrite E. now apply in_map.
Qed.

Lemma count_cur_members s :
  count_cur s = Z.of_nat (List.length (members (cur_ws s) (clients s))).
Proof. unfold count_cur, members. now rewrite length_map. Qed.

End ReadmeMore.

(** ** Further facts about src/madawm.c *)

Module MadaWMMore.
Import X11 MadaWM MadaWMModel MadaWMReach.

Lemma store_length {A} (l : list A) : forall n x,
  List.length (store n x l) = List.length l.
Proof.
  induction l as [|a l IH]; intros [|n] x; cbn; auto.
Qed.

Lemma mada_framed_ws s t : framed s t -> ws t = ws s.
Proof. intros ->. reflexivity. Qed.

Lemma mada_framed_cur s t : framed s t -> cur_ws t = cur_ws s.
Proof. intros ->. reflexivity. Qed.

Lemma change_ws_cur idx s :
  cur_ws (change_ws idx s) = cur_ws s
  \/ (0 <= idx < WORKSPACES /\ cur_ws (change_ws idx s) = idx).
Proof.
  unfold change_ws.
  destruct (Z.ltb_spec idx 0); cbn [orb]; [now left|].
  destruct (Z.geb_spec idx WORKSPACES); [now left|].
  right. split; [lia|]. now rewrite MadaWMFacts.mada_arrange_cur_ws.
Qed.

(** What an event does to the array and to the index. *)
Lemma dispatch_shape e s s' :
  dispatch e s = Ret s' ->
  List.length (ws s') = List.length (ws s)
  /\ (cur_ws s' = cur_ws s \/ 0 <= cur_ws s' < WORKSPACES).
Proof.
  assert (Hset : forall j l,
            List.length (ws (arrange (set_ws_at j l s))) = List.length (ws s)
            /\ cur_ws (arrange (set_ws_at j l s)) = cur_ws s).
  { intros j l. rewrite MadaWMFacts.arrange_ws, MadaWMFacts.mada_arrange_cur_ws.
    cbn [ws cur_ws set_ws_at with_ws]. now rewrite store_length. }
  destruct e as [w0|w0 se|w0|ev|w0|k kstate|]; cbn [dispatch].
  - unfold handle_maprequest. destruct (allowed_window _ _) as [ok|];
      cbn [bind]; [|discriminate].
    destruct (ok =? 0); intros [= <-]; [cbn; auto|].
    rewrite MadaWMFacts.arrange_ws, MadaWMFacts.mada_arrange_cur_ws.
    cbn [ws cur_ws X with_dpy add_client set_ws_at with_ws].
    rewrite store_length. auto.
  - intros [= <-]. destruct (Hset (cur_ws s) (unlink w0 (ws_at s (cur_ws s)))).
    unfold handle_unmap, remove_client_from_ws. auto.
  - intros [= <-]. destruct (Hset (cur_ws s) (unlink w0 (ws_at s (cur_ws s)))).
    unfold handle_destroy, remove_client_from_ws. auto.
  - intros [= <-]. cbn. auto.
  - intros [= <-]. auto.
  - repeat match goal with
           | |- context [if ?b then _ else _] => destruct b
           end; intros [= <-]; try (cbn; auto; fail).
    + rewrite MadaWMFacts.change_ws_ws. split; [reflexivity|].
      destruct (change_ws_cur 0 s) as [H|[H1 H2]]; [now left|right; lia].
    + rewrite MadaWMFacts.change_ws_ws. split; [reflexivity|].
      destruct (change_ws_cur 1 s) as [H|[H1 H2]]; [now left|right; lia].
    + rewrite MadaWMFacts.change_ws_ws. split; [reflexivity|].
      destruct (change_ws_cur 2 s) as [H|[H1 H2]]; [now left|right; lia].
    + unfold focus_prev.
      destruct (ws_at s (cur_ws s)) as [|c [|c' rest]]; auto.
      destruct (walk_to_last c (c' :: rest)) as [before l].
      destruct (Hset (cur_ws s) (l :: before)). auto.
    + rewrite MadaWMFacts.focus_next_arrange.
      rewrite MadaWMFacts.arrange_ws, MadaWMFacts.mada_arrange_cur_ws. auto.
  - intros [= <-]. auto.
Qed.

(** The array keeps its three lists and the index stays inside it. *)
Lemma reachable_index s :
  Reachable s ->
  List.length (ws s) = 3%nat /\ 0 <= cur_ws s < WORKSPACES.
Proof.
  induction 1 as [d sw sh term | s e s' _ IH Hd | s d _ IH].
  - cbn. unfold WORKSPACES. split; [reflexivity|lia].
  - destruct (dispatch_shape e s s' Hd) as [Hl Hc]. destruct IH as [IH1 IH2].
    split; [congruence|]. destruct Hc as [-> | Hc]; auto.
  - exact IH.
Qed.

(** *** focus_prev as a rotation *)

Lemma rotate_snoc a x : rotate (a ++ [x]) = x :: a.
Proof.
  unfold rotate. destruct (a ++ [x]) eqn:E.
  - now destruct a.
  - rewrite <- E, last_last, removelast_last. reflexivity.
Qed.

Lemma iter_rotate b : forall a,
  Nat.iter (List.length b) rotate (a ++ b) = b ++ a.
Proof.
  induction b as [|x b IH] using rev_ind; intros a.
  - cbn. now rewrite app_nil_r.
  - rewrite length_app. cbn [List.length].
    replace (List.length b + 1)%nat with (S (List.length b)) by lia.
    rewrite Nat.iter_succ_r, app_assoc, rotate_snoc.
    change (x :: a ++ b) with ((x :: a) ++ b). rewrite IH.
    now rewrite <- app_assoc.
Qed.

Lemma walk_to_last_rotate c rest :
  let (before, l) := walk_to_last c rest in l :: before = rotate (c :: rest).
Proof.
  destruct (walk_to_last c rest) as [before l] eqn:E.
  apply MadaWMFacts.walk_to_last_spec in E. rewrite E. now rewrite rotate_snoc.
Qed.

Lemma store_same {A} (l : list A) : forall n d, store n (nth n l d) l = l.
Proof.
  induction l as [|a l IH]; intros [|n] d; cbn; auto. now rewrite IH.
Qed.

(** [focus_prev] stores the rotated list in the current slot. *)
Lemma focus_prev_ws s :
  ws (focus_prev s)
  = store (Z.to_nat (cur_ws s)) (rotate (ws_at s (cur_ws s))) (ws s)
  /\ cur_ws (focus_prev s) = cur_ws s.
Proof.
  unfold focus_prev.
  destruct (ws_at s (cur_ws s)) as [|c [|c' rest]] eqn:E.
  - split; [|reflexivity]. cbn [rotate]. rewrite <- E. unfold ws_at.
    now rewrite store_same.
  - split; [|reflexivity].
    change (rotate [c]) with [c]. rewrite <- E. unfold ws_at.
    now rewrite store_same.
  - pose proof (walk_to_last_rotate c (c' :: rest)) as Hw.
    destruct (walk_to_last c (c' :: rest)) as [before l]. rewrite Hw.
    rewrite MadaWMFacts.arrange_ws, MadaWMFacts.mada_arrange_cur_ws.
    split; reflexivity.
Qed.

Lemma iter_focus_prev_ws s j :
  (Z.to_nat (cur_ws s) < List.length (ws s))%nat ->
  ws (Nat.iter j focus_prev s)
  = store (Z.to_nat (cur_ws s)) (Nat.iter j rotate (ws_at s (cur_ws s))) (ws s)
  /\ cur_ws (Nat.iter j focus_prev s) = cur_ws s.
Proof.
  intros Hlt. induction j as [|j [IH1 IH2]].
  - split; [|reflexivity]. cbn. unfold ws_at. now rewrite store_same.
  - change (Nat.iter (S j) focus_prev s)
      with (focus_prev (Nat.iter j focus_prev s)).
    change (Nat.iter (S j) rotate (ws_at s (cur_ws s)))
      with (rotate (Nat.iter j rotate (ws_at s (cur_ws s)))).
    destruct (focus_prev_ws (Nat.iter j focus_prev s)) as [H1 H2].
    rewrite H1, H2, IH2. split; [|reflexivity].
    unfold ws_at at 1. rewrite IH1.
    rewrite MadaWMFacts.nth_store by exact Hlt.
    now rewrite MadaWMFacts.store_store.
Qed.

(** *** Mapped state across a workspace switch *)

Lemma mada_mapped_X r s x :
  mapped (dpy (X r s)) x =
  match r with
  | XMapWindow w0 | XMapRaised w0 => if x =? w0 then true else mapped (dpy s) x
  | XUnmapWindow w0 => if x =? w0 then false else mapped (dpy s) x
  | _ => mapped (dpy s) x
  end.
Proof. destruct r; reflexivity. Qed.

Lemma unmap_all_mapped cs : forall s x,
  mapped (dpy (fold_left (fun st c => X (XUnmapWindow c) st) cs s)) x
  = if existsb (Z.eqb x) cs then false else mapped (dpy s) x.
Proof.
  induction cs as [|c cs IH]; intros s x; cbn [fold_left existsb];
    [reflexivity|].
  rewrite IH, mada_mapped_X.
  destruct (existsb (Z.eqb x) cs); [now rewrite orb_true_r|].
  rewrite orb_false_r. reflexivity.
Qed.

Lemma mada_arrange_loop_mapped cs : forall i w0 s x,
  mapped (dpy (arrange_loop cs i w0 s)) x
  = if existsb (Z.eqb x) cs then true else mapped (dpy s) x.
Proof.
  induction cs as [|c cs IH]; intros i w0 s x; cbn [arrange_loop existsb];
    [reflexivity|].
  rewrite IH, !mada_mapped_X.
  destruct (existsb (Z.eqb x) cs); [now rewrite orb_true_r|].
  rewrite orb_false_r. reflexivity.
Qed.

Lemma mada_arrange_mapped s x :
  mapped (dpy (arrange s)) x
  = if existsb (Z.eqb x) (ws_at s (cur_ws s)) then true
    else mapped (dpy s) x.
Proof.
  unfold arrange. destruct (ws_at s (cur_ws s)) as [|c cs] eqn:E.
  - reflexivity.
  - replace (Z.of_nat (List.length (c :: cs)) =? 0) with false
      by (symmetry; apply Z.eqb_neq; cbn [List.length]; lia).
    rewrite mada_mapped_X. apply mada_arrange_loop_mapped.
Qed.

Lemma existsb_In x l : existsb (Z.eqb x) l = true <-> In x l.
Proof.
  rewrite existsb_exists. split.
  - intros (y & Hin & E). apply Z.eqb_eq in E. now subst.
  - intros H. exists x. split; [exact H|apply Z.eqb_refl].
Qed.

(** *** The policy filter *)

Lemma allowed_loop_existsb n c ps :
  allowed_loop {| res_name := Some n; res_class := Some c |} ps
  = Ret (existsb
           (fun p => (strcasecmp c p =? 0) || (strcasecmp n p =? 0)) ps).
Proof.
  induction ps as [|p ps IH]; cbn [allowed_loop existsb]; [reflexivity|].
  rewrite IH. cbn.
  destruct (strcasecmp c p =? 0); cbn; [reflexivity|].
  destruct (strcasecmp n p =? 0); reflexivity.
Qed.

(** *** Columns *)

Lemma equal_columns_map sh q cs : forall k,
  equal_columns sh q cs (Z.of_nat k)
  = map (column_request sh q) (combine (seq k (List.length cs)) cs).
Proof.
  induction cs as [|c cs IH]; intros k; cbn [equal_columns List.length seq
                                            combine map]; [reflexivity|].
  f_equal. replace (Z.of_nat k + 1) with (Z.of_nat (S k)) by lia. apply IH.
Qed.

(** *** Runs *)

Lemma focus_untouched_trans s t u :
  focus_untouched s t -> focus_untouched t u -> focus_untouched s u.
Proof. intros [H1 H2] [H3 H4]. split; congruence. Qed.

Lemma run_focus evs : forall s s',
  run evs s = Ret s' -> focus_untouched s s'.
Proof.
  induction evs as [|e evs IH]; intros s s'; cbn [run].
  - intros [= <-]. apply MadaWMFacts.focus_untouched_refl.
  - destruct (running s); [|intros [= <-]; apply MadaWMFacts.focus_untouched_refl].
    destruct (dispatch e s) as [t|] eqn:Ed; cbn [bind]; [|discriminate].
    intros Hr. eapply focus_untouched_trans.
    + eapply MadaWMFacts.dispatch_focus, Ed.
    + now apply IH.
Qed.

Lemma mada_run_stopped evs s : running s = false -> run evs s = Ret s.
Proof. intros H. destruct evs; cbn [run]; [reflexivity|now rewrite H]. Qed.

Lemma mada_reachable_exec evs : forall s,
  Reachable s -> Reachable (exec evs s).
Proof.
  unfold exec. induction evs as [|e evs IH]; intros s Hr; cbn [run];
    [exact Hr|].
  destruct (running s); [|exact Hr].
  destruct (dispatch e s) as [s'|] eqn:Ed; cbn [bind]; [|exact Hr].
  assert (Reachable s') as Hr' by (eapply reach_event; eauto).
  specialize (IH s' Hr'). destruct (run evs s'); [exact IH|exact Hr].
Qed.

Lemma ws_at_ext s t i : ws t = ws s -> ws_at t i = ws_at s i.
Proof. unfold ws_at. now intros ->. Qed.

(** [allowed_window] tests [res_class] and reads [res_name] untested: the
    only hint record on which it would read a null pointer has the class set
    and the name null, which [XGetClassHint] does not deliver. *)
Lemma allowed_window_fault d w0 :
  allowed_window d w0 = NullDeref ->
  exists c, class_hint d w0
            = Some {| res_name := None; res_class := Some c |}.
Proof.
  unfold allowed_window. destruct (class_hint d w0) as [[[n|] [c|]]|];
    cbn [is_set res_class]; try discriminate.
  - rewrite allowed_loop_existsb. cbn [bind]. discriminate.
  - intros _. now exists c.
Qed.

End MadaWMMore.

(** ** Further properties of the README program *)

Import Session2.

(** Closes the goals that a concrete string holds no NUL character. *)
Ltac nul_free_solve := cbn; repeat split; discriminate.

(** Closes the goal that a concrete README session is reachable. *)
Ltac fixed_reachable :=
  apply ReadmeFacts.reachable_exec;
  [apply ReadmeModel.reach_initial
  |repeat constructor; vm_compute; discriminate].

(** X1.  In every reachable state of the README program the workspace of
    every client is a valid index, so is the current workspace, and no
    client has the null window as its handle. *)
Theorem readme_indices_valid (s : Readme.State) :
  ReadmeModel.Reachable s ->
  (forall c, In c (Readme.clients s) ->
             0 <= Readme.workspace c < Readme.WORKSPACES)
  /\ 0 <= Readme.cur_ws s < Readme.WORKSPACES
  /\ ~ In XNone (ReadmeModel.handles s).
Proof.
  intros Hr. apply ReadmeFacts.reachable_registry_ok in Hr.
  destruct Hr as [_ H2 H3 H4]. auto.
Qed.

Lemma readme_indices_valid_witness :
  0 <= Readme.cur_ws fixed_two_firefox < Readme.WORKSPACES.
Proof.
  refine (proj1 (proj2 (readme_indices_valid fixed_two_firefox _))).
  unfold fixed_two_firefox, fixed_two. apply ReadmeModel.reach_server.
  fixed_reachable.
Defined.

(** X2.  [match_class] answers 1 exactly when one of the two hints is set
    and equals an entry of the list up to the case of its letters; otherwise
    it answers 0. *)
Theorem match_class_up_to_case
    (d : Display) (w0 : Window) (ch : XClassHint) (classes : list string) :
  class_hint d w0 = Some ch ->
  ReadmeObs.hints_nul_free ch ->
  Forall ReadmeObs.nul_free classes ->
  (Readme.match_class d w0 classes = Ret 1
   <-> ReadmeObs.hint_matches ch classes)
  /\ (Readme.match_class d w0 classes = Ret 1
      \/ Readme.match_class d w0 classes = Ret 0).
Proof.
  intros Hh [Hc Hn] Hcl. split.
  - rewrite ReadmeMore.match_class_hit. unfold ReadmeObs.hint_matches. split.
    + intros (ch' & x & p & E & Hx & Hin & Hp).
      rewrite Hh in E. injection E as <-. exists x, p.
      repeat split; auto. apply ReadmeMore.strcasecmp_zero; auto.
      * destruct Hx; auto.
      * rewrite Forall_forall in Hcl. auto.
    + intros (x & p & Hx & Hin & Hp). exists ch, x, p.
      repeat split; auto. now apply ReadmeMore.strcasecmp_lower.
  - destruct (ReadmeFacts.match_class_returns d w0 classes); auto.
Qed.

Lemma match_class_up_to_case_witness :
  ReadmeObs.hint_matches shouting Readme.terminal_classes.
Proof.
  refine (proj1 (proj1 (match_class_up_to_case (display (Some shouting)) 101
                          shouting Readme.terminal_classes _ _ _)) _).
  - reflexivity.
  - split; intros x [= <-]. nul_free_solve.
  - repeat constructor; nul_free_solve.
  - vm_compute. reflexivity.
Defined.

(** X3.  [get_window_workspace] sends a window that matches the terminal
    list to workspace 0, also when it matches the browser list too; a window
    that matches the browser list only to workspace 1; and answers -1 for
    every other window. *)
Theorem terminal_list_comes_first
    (d : Display) (w0 : Window) (ch : XClassHint) :
  class_hint d w0 = Some ch ->
  ReadmeObs.hints_nul_free ch ->
  (ReadmeObs.hint_matches ch Readme.terminal_classes ->
   Readme.get_window_workspace d w0 = Ret 0)
  /\ (~ ReadmeObs.hint_matches ch Readme.terminal_classes ->
      ReadmeObs.hint_matches ch Readme.browser_classes ->
      Readme.get_window_workspace d w0 = Ret 1)
  /\ (~ ReadmeObs.hint_matches ch Readme.terminal_classes ->
      ~ ReadmeObs.hint_matches ch Readme.browser_classes ->
      Readme.get_window_workspace d w0 = Ret (-1)).
Proof.
  intros Hh Hnf.
  assert (Ht : Forall ReadmeObs.nul_free Readme.terminal_classes)
    by (repeat constructor; nul_free_solve).
  assert (Hb : Forall ReadmeObs.nul_free Readme.browser_classes)
    by (repeat constructor; nul_free_solve).
  destruct (match_class_up_to_case d w0 ch Readme.terminal_classes Hh Hnf Ht)
    as [It Rt].
  destruct (match_class_up_to_case d w0 ch Readme.browser_classes Hh Hnf Hb)
    as [Ib Rb].
  unfold Readme.get_window_workspace. repeat split.
  - intros H. apply It in H. rewrite H. reflexivity.
  - intros Hn H. apply Ib in H. destruct Rt as [E|E]; [tauto|].
    rewrite E, H. reflexivity.
  - intros Hn Hn'. destruct Rt as [E|E]; [tauto|].
    destruct Rb as [E'|E']; [tauto|]. rewrite E, E'. reflexivity.
Qed.

Lemma terminal_list_comes_first_witness :
  Readme.get_window_workspace
    (display (Some (hint (Some "firefox"%string) (Some "kitty"%string)))) 101
  = Ret 0.
Proof.
  refine (proj1 (terminal_list_comes_first
                   (display (Some (hint (Some "firefox"%string)
                                        (Some "kitty"%string)))) 101
                   (hint (Some "firefox"%string) (Some "kitty"%string))
                   _ _) _).
  - reflexivity.
  - split; intros x [= <-]; nul_free_solve.
  - exists "kitty"%string, "kitty"%string. repeat split.
    + now left.
    + vm_compute. tauto.
Defined.

(** X4.  A map request for an unmanaged window that has no class hint, or
    whose two hints are both unset, kills the window and does nothing else:
    the registry, the current workspace and the focus stay as they were. *)
Theorem unhinted_window_is_killed (s : Readme.State) (w0 : Window) :
  ~ In w0 (ReadmeModel.handles s) ->
  class_hint (Readme.dpy s) w0 = None
  \/ class_hint (Readme.dpy s) w0 = Some (hint None None) ->
  Readme.dispatch (MapRequest w0) s = Ret (Readme.X (XKillClient w0) s).
Proof.
  intros Hnew Hh. cbn [Readme.dispatch]. unfold Readme.handle_maprequest.
  apply ReadmeFacts.find_client_none in Hnew. rewrite Hnew. cbn [is_set].
  unfold Readme.get_window_workspace, Readme.match_class.
  destruct Hh as [-> | ->]; reflexivity.
Qed.

Lemma unhinted_window_is_killed_witness :
  Readme.dispatch (MapRequest 301) fixed_two_unhinted
  = Ret (Readme.X (XKillClient 301) fixed_two_unhinted).
Proof.
  apply unhinted_window_is_killed.
  - vm_compute. intros [H|[H|H]]; try discriminate; exact H.
  - left. reflexivity.
Defined.

(** X5.  An accepted map request makes the window's workspace the current
    one: the window is registered at the head of the list, its workspace
    becomes current (the program switches to it when it was not), the
    window is mapped and has the input focus. *)
Theorem maprequest_switches_workspace
    (s s' : Readme.State) (w0 : Window) (ws : Z) :
  ReadmeModel.Reachable s ->
  w0 <> XNone ->
  ~ In w0 (ReadmeModel.handles s) ->
  Readme.get_window_workspace (Readme.dpy s) w0 = Ret ws -> 0 <= ws ->
  Readme.dispatch (MapRequest w0) s = Ret s' ->
  Readme.clients s'
    = {| Readme.w := w0; Readme.workspace := ws |} :: Readme.clients s
  /\ Readme.cur_ws s' = ws
  /\ mapped (Readme.dpy s') w0 = true
  /\ input_focus (Readme.dpy s') = w0.
Proof.
  intros Hr Hw0 Hnew Hg Hws Hd. apply ReadmeFacts.reachable_registry_ok in Hr.
  destruct Hr as [Hnd Hreal _ _]. cbn [Readme.dispatch] in Hd.
  destruct (ReadmeFacts.handle_maprequest_cases w0 s s' Hd)
    as [[Hin _] | [(_ & Hrej & _)
                  | (ws' & t & _ & _ & Hg' & Hc & Hcur & Hroot & ->)]].
  - contradiction.
  - rewrite Hg in Hrej. injection Hrej as ->. lia.
  - rewrite Hg in Hg'. injection Hg' as <-.
    assert (Hnd' : NoDup (ReadmeModel.handles t)).
    { unfold ReadmeModel.handles. rewrite Hc. cbn. now constructor. }
    assert (Hreal' : ~ In XNone (ReadmeModel.handles t)).
    { unfold ReadmeModel.handles. rewrite Hc. cbn. intros [F|F]; auto. }
    assert (Hcount : Readme.count_cur t <> 0).
    { rewrite ReadmeMore.count_cur_members. unfold Readme.members.
      rewrite Hc, Hcur. cbn [filter Readme.workspace].
      rewrite Z.eqb_refl. cbn. lia. }
    rewrite ReadmeFacts.arrange_clients, ReadmeFacts.arrange_cur_ws.
    repeat split; auto.
    + rewrite ReadmeMore.arrange_mapped by assumption.
      rewrite Hc. cbn [Readme.find_client Readme.w]. rewrite Z.eqb_refl.
      cbn [Readme.workspace]. rewrite Hcur. apply Z.eqb_refl.
    + rewrite ReadmeFacts.arrange_input_focus by exact Hreal'.
      unfold Readme.members. rewrite Hc, Hcur. cbn [filter Readme.workspace].
      rewrite Z.eqb_refl. reflexivity.
Qed.

Lemma maprequest_switches_workspace_witness :
  Readme.cur_ws fixed_two_firefox = 0
  /\ Readme.cur_ws (ReadmeModel.exec [MapRequest 201] fixed_two_firefox) = 1.
Proof.
  split; [vm_compute; reflexivity|].
  refine (proj1 (proj2 (maprequest_switches_workspace fixed_two_firefox
                          (ReadmeModel.exec [MapRequest 201] fixed_two_firefox)
                          201 1 _ _ _ _ _ _))).
  - unfold fixed_two_firefox, fixed_two. apply ReadmeModel.reach_server.
    fixed_reachable.
  - discriminate.
  - vm_compute. intros [H|[H|H]]; try discriminate; exact H.
  - vm_compute. reflexivity.
  - lia.
  - vm_compute. reflexivity.
Defined.

(** X6.  After [arrange] on a workspace that has clients, every managed
    window is mapped exactly when it belongs to the current workspace, and
    windows that are not managed keep their mapped state. *)
Theorem arrange_isolates_workspaces (s : Readme.State) :
  ReadmeModel.Reachable s ->
  Readme.count_cur s <> 0 ->
  (forall c, In c (Readme.clients s) ->
             mapped (Readme.dpy (Readme.arrange s)) (Readme.w c)
             = (Readme.workspace c =? Readme.cur_ws s))
  /\ (forall x, ~ In x (ReadmeModel.handles s) ->
                mapped (Readme.dpy (Readme.arrange s)) x
                = mapped (Readme.dpy s) x).
Proof.
  intros Hr Hc. apply ReadmeFacts.reachable_handles_once in Hr. split.
  - intros c Hin. rewrite ReadmeMore.arrange_mapped by assumption.
    now rewrite ReadmeMore.find_client_in.
  - intros x Hx. rewrite ReadmeMore.arrange_mapped by assumption.
    apply ReadmeFacts.find_client_none in Hx. now rewrite Hx.
Qed.

Lemma arrange_isolates_workspaces_witness :
  mapped (Readme.dpy (Readme.arrange
                        (ReadmeModel.exec [MapRequest 201] fixed_two_firefox)))
    101 = false.
Proof.
  refine (proj1 (arrange_isolates_workspaces
                   (ReadmeModel.exec [MapRequest 201] fixed_two_firefox) _ _)
            {| Readme.w := 101; Readme.workspace := 0 |} _).
  - apply ReadmeFacts.reachable_exec.
    + unfold fixed_two_firefox, fixed_two. apply ReadmeModel.reach_server.
      fixed_reachable.
    + repeat constructor. discriminate.
  - vm_compute. discriminate.
  - vm_compute. tauto.
Defined.

(** X7.  Switching to a valid workspace that has no client only gives the
    focus to the root window: nothing is unmapped, so the windows of the
    workspace that was left stay mapped. *)
Theorem switch_to_empty_workspace_unmaps_nothing
    (s : Readme.State) (ws : Z) :
  0 <= ws < Readme.WORKSPACES ->
  ws <> Readme.cur_ws s ->
  Readme.members ws (Readme.clients s) = [] ->
  Readme.change_ws ws s
    = Readme.X (XSetInputFocus (Readme.root s)) (Readme.with_cur_ws ws s)
  /\ mapped (Readme.dpy (Readme.change_ws ws s)) = mapped (Readme.dpy s).
Proof.
  intros Hws Hne Hm.
  assert (E : Readme.change_ws ws s
              = Readme.X (XSetInputFocus (Readme.root s))
                  (Readme.with_cur_ws ws s)).
  { unfold Readme.change_ws.
    replace (ws <? 0) with false by (symmetry; apply Z.ltb_ge; lia).
    replace (ws >=? Readme.WORKSPACES) with false
      by (symmetry; rewrite Z.geb_leb; apply Z.leb_gt; lia).
    replace (ws =? Readme.cur_ws s) with false
      by (symmetry; now apply Z.eqb_neq).
    cbn [orb].
    rewrite (ReadmeMore.arrange_empty (Readme.with_cur_ws ws s));
      [reflexivity|].
    rewrite ReadmeMore.count_cur_members.
    cbn [Readme.cur_ws Readme.clients Readme.with_cur_ws]. now rewrite Hm. }
  split; [exact E|]. rewrite E. reflexivity.
Qed.

Lemma switch_to_empty_workspace_unmaps_nothing_witness :
  mapped (Readme.dpy (Readme.change_ws 1 fixed_two)) 101 = true
  /\ Readme.cur_ws (Readme.change_ws 1 fixed_two) = 1.
Proof.
  destruct (switch_to_empty_workspace_unmaps_nothing fixed_two 1) as [E1 E2].
  - unfold Readme.WORKSPACES. lia.
  - vm_compute. discriminate.
  - vm_compute. reflexivity.
  - split; [rewrite E2|rewrite E1]; vm_compute; reflexivity.
Defined.

(** X8.  One call of [focus_prev] moves the focus from a member of the
    current workspace to the member before it in list order, and from the
    first member to the last. *)
Theorem focus_prev_moves_to_predecessor (s : Readme.State) (i : nat) :
  ReadmeModel.Reachable s ->
  (i < List.length (Readme.members (Readme.cur_ws s) (Readme.clients s)))%nat ->
  input_focus (Readme.dpy s)
    = nth i (Readme.members (Readme.cur_ws s) (Readme.clients s)) XNone ->
  input_focus (Readme.dpy (Readme.focus_prev s)) =
    match i with
    | O => last (Readme.members (Readme.cur_ws s) (Readme.clients s)) XNone
    | S j => nth j (Readme.members (Readme.cur_ws s) (Readme.clients s)) XNone
    end
  /\ Readme.clients (Readme.focus_prev s) = Readme.clients s
  /\ Readme.cur_ws (Readme.focus_prev s) = Readme.cur_ws s.
Proof.
  intros Hr Hi Hf. apply ReadmeFacts.reachable_registry_ok in Hr.
  split; [now apply ReadmeMore.focus_prev_step|].
  pose proof (ReadmeFacts.focus_prev_framed s) as Hfr.
  now rewrite (ReadmeFacts.framed_clients _ _ Hfr),
    (ReadmeFacts.framed_cur_ws _ _ Hfr).
Qed.

Lemma focus_prev_moves_to_predecessor_witness :
  input_focus (Readme.dpy fixed_three) = 103
  /\ input_focus (Readme.dpy (Readme.focus_prev fixed_three)) = 101.
Proof.
  split; [vm_compute; reflexivity|].
  destruct (focus_prev_moves_to_predecessor fixed_three 0) as [H _].
  - unfold fixed_three. fixed_reachable.
  - vm_compute. lia.
  - vm_compute. reflexivity.
  - rewrite H. vm_compute. reflexivity.
Defined.

(** X9.  When the focus is on a member of the current workspace,
    [focus_prev] undoes [focus_next] and [focus_next] undoes [focus_prev]:
    the focus is back on the same window. *)
Theorem focus_prev_undoes_focus_next (s : Readme.State) :
  ReadmeModel.Reachable s ->
  In (input_focus (Readme.dpy s))
     (Readme.members (Readme.cur_ws s) (Readme.clients s)) ->
  input_focus (Readme.dpy (Readme.focus_prev (Readme.focus_next s)))
    = input_focus (Readme.dpy s)
  /\ input_focus (Readme.dpy (Readme.focus_next (Readme.focus_prev s)))
     = input_focus (Readme.dpy s).
Proof.
  intros Hr Hin. apply ReadmeFacts.reachable_registry_ok in Hr.
  destruct (In_nth _ _ XNone Hin) as (i & Hi & Hnth).
  symmetry in Hnth.
  set (l := Readme.members (Readme.cur_ws s) (Readme.clients s)) in *.
  assert (Hl : l <> []) by (destruct l; [cbn in Hi; lia|discriminate]).
  assert (Hhd : hd XNone l = nth 0 l XNone) by now destruct l.
  assert (Hmem : forall t, ReadmeModel.framed s t ->
             Readme.members (Readme.cur_ws t) (Readme.clients t) = l).
  { intros t Ht. now rewrite (ReadmeFacts.framed_clients _ _ Ht),
      (ReadmeFacts.framed_cur_ws _ _ Ht). }
  split.
  - pose proof (ReadmeFacts.focus_next_step s i Hr Hi Hnth) as Hn.
    fold l in Hn.
    pose proof (ReadmeFacts.focus_next_framed s) as Hfr.
    pose proof (ReadmeFacts.registry_ok_framed _ _ Hfr Hr) as Hr'.
    destruct (Nat.ltb_spec (S i) (List.length l)) as [Hlt|Hge].
    + rewrite (ReadmeMore.focus_prev_step (Readme.focus_next s) (S i));
        rewrite ?(Hmem _ Hfr); auto.
    + rewrite Hhd in Hn.
      rewrite (ReadmeMore.focus_prev_step (Readme.focus_next s) 0);
        rewrite ?(Hmem _ Hfr); auto; [|lia].
      rewrite ReadmeMore.last_nth by exact Hl. rewrite Hnth. f_equal. lia.
  - pose proof (ReadmeMore.focus_prev_step s i Hr Hi Hnth) as Hp.
    fold l in Hp.
    pose proof (ReadmeFacts.focus_prev_framed s) as Hfr.
    pose proof (ReadmeFacts.registry_ok_framed _ _ Hfr Hr) as Hr'.
    destruct i as [|j].
    + rewrite ReadmeMore.last_nth in Hp by exact Hl.
      rewrite (ReadmeFacts.focus_next_step (Readme.focus_prev s)
                 (List.length l - 1));
        rewrite ?(Hmem _ Hfr); auto; [|lia].
      replace (S (List.length l - 1) <? List.length l)%nat with false
        by (symmetry; apply Nat.ltb_ge; lia).
      now rewrite Hhd.
    + rewrite (ReadmeFacts.focus_next_step (Readme.focus_prev s) j);
        rewrite ?(Hmem _ Hfr); auto; [|lia].
      replace (S j <? List.length l)%nat with true
        by (symmetry; apply Nat.ltb_lt; lia).
      now rewrite Hnth.
Qed.

Lemma focus_prev_undoes_focus_next_witness :
  input_focus (Readme.dpy (Readme.focus_prev (Readme.focus_next fixed_three)))
  = 103.
Proof.
  destruct (focus_prev_undoes_focus_next fixed_three) as [H _].
  - unfold fixed_three. fixed_reachable.
  - vm_compute. tauto.
  - rewrite H. vm_compute. reflexivity.
Defined.

(** X10.  When the focused window is not a member of the current
    workspace, [focus_next] gives the focus to the first member and
    [focus_prev] to the last; when the workspace has no client both return
    the state unchanged. *)
Theorem focus_cycle_fallback (s : Readme.State) :
  ReadmeModel.Reachable s ->
  ~ In (input_focus (Readme.dpy s))
       (Readme.members (Readme.cur_ws s) (Readme.clients s)) ->
  (Readme.members (Readme.cur_ws s) (Readme.clients s) = [] ->
   Readme.focus_next s = s /\ Readme.focus_prev s = s)
  /\ (forall a l,
        Readme.members (Readme.cur_ws s) (Readme.clients s) = a :: l ->
        input_focus (Readme.dpy (Readme.focus_next s)) = a
        /\ input_focus (Readme.dpy (Readme.focus_prev s)) = last (a :: l) XNone).
Proof.
  intros Hr Hout. apply ReadmeFacts.reachable_registry_ok in Hr.
  destruct Hr as [_ Hreal _ _].
  rewrite ReadmeFacts.focus_next_spec, ReadmeMore.focus_prev_spec. split.
  - intros ->. split; reflexivity.
  - intros a l Hm. rewrite Hm in *.
    unfold ReadmeModel.next_window, ReadmeObs.prev_window.
    rewrite ReadmeMore.successor_absent by exact Hout.
    rewrite ReadmeMore.prev_from_absent by exact Hout.
    cbn [hd]. split; apply ReadmeMore.set_focus_member with (l := a :: l); auto.
    + now left.
    + rewrite ReadmeMore.last_nth by discriminate. apply nth_In. cbn. lia.
Qed.

Lemma focus_cycle_fallback_witness :
  input_focus (Readme.dpy fixed_two_astray) = 77
  /\ input_focus (Readme.dpy (Readme.focus_next fixed_two_astray)) = 102
  /\ input_focus (Readme.dpy (Readme.focus_prev fixed_two_astray)) = 101.
Proof.
  split; [vm_compute; reflexivity|].
  destruct (focus_cycle_fallback fixed_two_astray) as [_ H].
  - unfold fixed_two_astray, fixed_two. apply ReadmeModel.reach_server.
    fixed_reachable.
  - vm_compute. intros [F|[F|F]]; try discriminate; exact F.
  - destruct (H 102 [101]) as [H1 H2]; [vm_compute; reflexivity|].
    split; [exact H1|]. rewrite H2. reflexivity.
Defined.

(** X11.  After [arrange], of the windows of the current workspace the
    first one has the focus border colour and every other one the unfocused
    colour. *)
Theorem arrange_borders
    (s : Readme.State) (h : Window) (rest : list Window) (x : Window) :
  ReadmeModel.Reachable s ->
  Readme.members (Readme.cur_ws s) (Readme.clients s) = h :: rest ->
  In x (h :: rest) ->
  ReadmeObs.border_of (requests (Readme.dpy (Readme.arrange s))) x
  = Some (if x =? h then Readme.BORDER_FOCUS else Readme.BORDER_UNFOCUS).
Proof.
  intros Hr Hm Hx. apply ReadmeFacts.reachable_registry_ok in Hr.
  destruct Hr as [_ Hreal _ _]. now apply ReadmeMore.arrange_border with rest.
Qed.

Lemma arrange_borders_witness :
  ReadmeObs.border_of (requests (Readme.dpy (Readme.arrange fixed_three))) 101
  = Some Readme.BORDER_UNFOCUS.
Proof.
  refine (arrange_borders fixed_three 103 [102; 101] 101 _ _ _).
  - unfold fixed_three. fixed_reachable.
  - vm_compute. reflexivity.
  - cbn. tauto.
Defined.

(** X12.  Once the quit key has been handled the loop handles no further
    event: in the README program Super+Shift+q, in src/madawm.c the key q
    whatever the modifiers, ends the run in the state with [running]
    cleared. *)
Theorem quit_stops_the_loop
    (s : Readme.State) (m : MadaWM.State) (st st' : Z) (evs : list XEvent) :
  Readme.running s = true ->
  MadaWM.running m = true ->
  Z.land st (Z.lnot (Z.lor LockMask Mod2Mask)) = Z.lor Mod4Mask ShiftMask ->
  Readme.run (KeyPress XK_q st :: evs) s = Ret (Readme.with_running false s)
  /\ MadaWM.run (KeyPress XK_q st' :: evs) m
     = Ret (MadaWM.with_running false m).
Proof.
  intros Hs Hm Hst. split.
  - cbn [Readme.run]. rewrite Hs. cbn [Readme.dispatch]. rewrite Hst.
    cbn [bind]. change (Z.lor Mod4Mask ShiftMask =? Mod4Mask) with false.
    rewrite Z.eqb_refl. change (XK_q =? XK_c) with false.
    rewrite Z.eqb_refl. cbn [bind]. now apply ReadmeMore.run_stopped.
  - cbn [MadaWM.run]. rewrite Hm. cbn. now apply MadaWMMore.mada_run_stopped.
Qed.

Lemma quit_stops_the_loop_witness :
  Readme.clients
    (ReadmeModel.exec [KeyPress XK_q 65; DestroyNotify 101] fixed_two)
  = Readme.clients fixed_two.
Proof.
  unfold ReadmeModel.exec.
  rewrite (proj1 (quit_stops_the_loop fixed_two mada_two 65 0
                    [DestroyNotify 101] eq_refl eq_refl eq_refl)).
  reflexivity.
Defined.

(** X13.  The registry behaves as a finite map from handles to clients:
    after [add_client] the window is found with its workspace and the other
    lookups are unchanged; after [remove_client] the window is not found
    and the other lookups are unchanged; and [remove_client] takes exactly
    one client out when the window is registered. *)
Theorem registry_lookup_laws
    (s : Readme.State) (w0 x : Window) (ws : Z) :
  ReadmeModel.Reachable s ->
  Readme.find_client w0 (Readme.clients (Readme.add_client w0 ws s))
    = Some {| Readme.w := w0; Readme.workspace := ws |}
  /\ (x <> w0 ->
      Readme.find_client x (Readme.clients (Readme.add_client w0 ws s))
      = Readme.find_client x (Readme.clients s))
  /\ Readme.find_client w0 (Readme.clients (Readme.remove_client w0 s)) = None
  /\ (x <> w0 ->
      Readme.find_client x (Readme.clients (Readme.remove_client w0 s))
      = Readme.find_client x (Readme.clients s))
  /\ (In w0 (ReadmeModel.handles s) ->
      S (List.length (Readme.clients (Readme.remove_client w0 s)))
      = List.length (Readme.clients s)).
Proof.
  intros Hr. apply ReadmeFacts.reachable_handles_once in Hr.
  cbn [Readme.add_client Readme.remove_client Readme.clients Readme.X
       Readme.with_dpy Readme.with_clients Readme.find_client Readme.w].
  rewrite Z.eqb_refl. repeat split.
  - intros Hx. destruct (Z.eqb_spec w0 x); [congruence|reflexivity].
  - rewrite ReadmeMore.find_client_unlink by exact Hr. now rewrite Z.eqb_refl.
  - intros Hx. rewrite ReadmeMore.find_client_unlink by exact Hr.
    destruct (Z.eqb_spec x w0); [congruence|reflexivity].
  - apply ReadmeMore.unlink_length.
Qed.

Lemma registry_lookup_laws_witness :
  Readme.find_client 102 (Readme.clients (Readme.remove_client 102 fixed_two))
  = None
  /\ Readme.find_client 101
       (Readme.clients (Readme.remove_client 102 fixed_two))
     = Some {| Readme.w := 101; Readme.workspace := 0 |}.
Proof.
  destruct (registry_lookup_laws fixed_two 102 101 0) as (_ & _ & H3 & H4 & _).
  - unfold fixed_two. fixed_reachable.
  - split; [exact H3|]. rewrite H4 by discriminate. vm_compute. reflexivity.
Defined.

(** X14.  Running [arrange] a second time changes nothing that can be
    seen: the mapped state of every window, the input focus, the registry
    and the current workspace are as the first run left them. *)
Theorem arrange_twice (s : Readme.State) :
  ReadmeModel.Reachable s ->
  (forall x, mapped (Readme.dpy (Readme.arrange (Readme.arrange s))) x
             = mapped (Readme.dpy (Readme.arrange s)) x)
  /\ input_focus (Readme.dpy (Readme.arrange (Readme.arrange s)))
     = input_focus (Readme.dpy (Readme.arrange s))
  /\ Readme.clients (Readme.arrange (Readme.arrange s)) = Readme.clients s
  /\ Readme.cur_ws (Readme.arrange (Readme.arrange s)) = Readme.cur_ws s.
Proof.
  intros Hr. apply ReadmeFacts.reachable_registry_ok in Hr.
  pose proof (ReadmeFacts.arrange_framed s) as Hfr.
  pose proof (ReadmeFacts.registry_ok_framed _ _ Hfr Hr) as Hr'.
  destruct Hr as [Hnd Hreal _ _]. destruct Hr' as [Hnd' Hreal' _ _].
  assert (Hcount : Readme.count_cur (Readme.arrange s) = Readme.count_cur s).
  { unfold Readme.count_cur.
    now rewrite (ReadmeFacts.framed_clients _ _ Hfr),
      (ReadmeFacts.framed_cur_ws _ _ Hfr). }
  repeat split.
  - intros x. destruct (Z.eq_dec (Readme.count_cur s) 0) as [E|E].
    + rewrite (ReadmeMore.arrange_empty (Readme.arrange s)) by congruence.
      reflexivity.
    + rewrite (ReadmeMore.arrange_mapped (Readme.arrange s))
        by (auto; congruence).
      rewrite (ReadmeFacts.framed_clients _ _ Hfr),
        (ReadmeFacts.framed_cur_ws _ _ Hfr).
      rewrite (ReadmeMore.arrange_mapped s) by assumption.
      now destruct (Readme.find_client x (Readme.clients s)).
  - rewrite !ReadmeFacts.arrange_input_focus by assumption.
    now rewrite (ReadmeFacts.framed_clients _ _ Hfr),
      (ReadmeFacts.framed_cur_ws _ _ Hfr), (ReadmeFacts.framed_root _ _ Hfr).
  - now rewrite !ReadmeFacts.arrange_clients.
  - now rewrite !ReadmeFacts.arrange_cur_ws.
Qed.

Lemma arrange_twice_witness :
  input_focus (Readme.dpy (Readme.arrange (Readme.arrange fixed_two_cycled)))
  = 102.
Proof.
  destruct (arrange_twice fixed_two_cycled) as (_ & H & _).
  - unfold fixed_two_cycled. fixed_reachable.
  - rewrite H. vm_compute. reflexivity.
Defined.

(** X15.  The focus follows the pointer into managed windows of the
    current workspace only: for such a window [EnterNotify] gives it the
    input focus and touches neither the registry, nor the geometry, nor the
    mapped state; for a window that is not managed, or is on another
    workspace, the state is unchanged. *)
Theorem enternotify_follows_pointer (s : Readme.State) (w0 : Window) :
  ReadmeModel.Reachable s ->
  (forall c, Readme.find_client w0 (Readme.clients s) = Some c ->
             Readme.workspace c = Readme.cur_ws s ->
             input_focus (Readme.dpy (Readme.handle_enternotify w0 s)) = w0
             /\ Readme.clients (Readme.handle_enternotify w0 s)
                = Readme.clients s
             /\ ReadmeModel.moves (Readme.handle_enternotify w0 s)
                = ReadmeModel.moves s
             /\ mapped (Readme.dpy (Readme.handle_enternotify w0 s))
                = mapped (Readme.dpy s))
  /\ (Readme.find_client w0 (Readme.clients s) = None ->
      Readme.handle_enternotify w0 s = s)
  /\ (forall c, Readme.find_client w0 (Readme.clients s) = Some c ->
                Readme.workspace c <> Readme.cur_ws s ->
                Readme.handle_enternotify w0 s = s).
Proof.
  intros Hr. apply ReadmeFacts.reachable_registry_ok in Hr.
  destruct Hr as [_ Hreal _ _]. unfold Readme.handle_enternotify.
  repeat split.
  - rewrite H, H0, Z.eqb_refl. rewrite ReadmeFacts.set_focus_input_focus.
    apply ReadmeFacts.find_client_some in H. destruct H as [Hin Hw].
    destruct (Z.eqb_spec (Readme.w c) XNone) as [E|E]; [|exact Hw].
    exfalso. apply Hreal. unfold ReadmeModel.handles. rewrite <- E.
    now apply in_map.
  - rewrite H, H0, Z.eqb_refl.
    apply ReadmeFacts.framed_clients, ReadmeFacts.set_focus_framed.
  - rewrite H, H0, Z.eqb_refl. apply ReadmeFacts.set_focus_moves.
  - rewrite H, H0, Z.eqb_refl. apply ReadmeMore.set_focus_mapped.
  - intros ->. reflexivity.
  - intros c -> Hne. apply Z.eqb_neq in Hne. now rewrite Hne.
Qed.

Lemma enternotify_follows_pointer_witness :
  input_focus (Readme.dpy (Readme.handle_enternotify 101 fixed_two)) = 101.
Proof.
  destruct (enternotify_follows_pointer fixed_two 101) as [H _].
  - unfold fixed_two. fixed_reachable.
  - destruct (H {| Readme.w := 101; Readme.workspace := 0 |}) as [H1 _].
    + vm_compute. reflexivity.
    + vm_compute. reflexivity.
    + exact H1.
Defined.

(** X16.  The key dispatch of the README program does not see the Caps
    Lock and Num Lock modifiers: a key press handled with them set is
    handled as without them. *)
Theorem lock_modifiers_ignored
    (s : Readme.State) (k : KeySym) (st lock : Z) :
  Z.land lock (Z.lnot (Z.lor LockMask Mod2Mask)) = 0 ->
  Readme.dispatch (KeyPress k (Z.lor st lock)) s
  = Readme.dispatch (KeyPress k st) s.
Proof.
  intros H. cbn [Readme.dispatch]. now rewrite ReadmeMore.masked_state.
Qed.

Lemma lock_modifiers_ignored_witness :
  Readme.dispatch (KeyPress XK_2 (Z.lor Mod4Mask (Z.lor LockMask Mod2Mask)))
    fixed_two
  = Readme.dispatch (KeyPress XK_2 Mod4Mask) fixed_two.
Proof.
  apply lock_modifiers_ignored. vm_compute. reflexivity.
Defined.

(** X17.  The README program never reads through a null hint pointer:
    whatever the events and whatever the hints on the display, [run]
    returns a state. *)
Theorem readme_run_never_faults (evs : list XEvent) (s : Readme.State) :
  exists s', Readme.run evs s = Ret s'.
Proof. apply ReadmeMore.run_total. Qed.

(** ** Further properties of src/madawm.c *)

(** Closes the goal that a concrete session of src/madawm.c is reachable. *)
Ltac mada_reachable :=
  apply MadaWMMore.mada_reachable_exec; apply MadaWMReach.reach_initial.

(** X18.  In every reachable state of src/madawm.c the array [ws] has its
    three lists and [cur_ws] is an index into it: [ws[cur_ws]] is never an
    access outside the array. *)
Theorem madawm_index_in_range (s : MadaWM.State) :
  MadaWMReach.Reachable s ->
  List.length (MadaWM.ws s) = Z.to_nat MadaWM.WORKSPACES
  /\ 0 <= MadaWM.cur_ws s < MadaWM.WORKSPACES
  /\ (Z.to_nat (MadaWM.cur_ws s) < List.length (MadaWM.ws s))%nat.
Proof.
  intros Hr. destruct (MadaWMMore.reachable_index s Hr) as [H1 H2].
  unfold MadaWM.WORKSPACES in *. rewrite H1. repeat split; try lia.
Qed.

Lemma madawm_index_in_range_witness :
  0 <= MadaWM.cur_ws mada_split < MadaWM.WORKSPACES.
Proof.
  refine (proj1 (proj2 (madawm_index_in_range mada_split _))).
  unfold mada_split. mada_reachable.
Defined.

(** X19.  [focus_prev] of src/madawm.c rotates the list of the current
    workspace: the last node comes to the front, the other workspaces are
    untouched, and as many calls as the list has nodes give the lists
    back. *)
Theorem madawm_focus_prev_rotates (s : MadaWM.State) :
  MadaWMReach.Reachable s ->
  MadaWM.ws_at (MadaWM.focus_prev s) (MadaWM.cur_ws s)
    = MadaWMReach.rotate (MadaWM.ws_at s (MadaWM.cur_ws s))
  /\ (forall i, Z.to_nat i <> Z.to_nat (MadaWM.cur_ws s) ->
                MadaWM.ws_at (MadaWM.focus_prev s) i = MadaWM.ws_at s i)
  /\ MadaWM.cur_ws (MadaWM.focus_prev s) = MadaWM.cur_ws s
  /\ MadaWM.ws
       (Nat.iter (List.length (MadaWM.ws_at s (MadaWM.cur_ws s)))
          MadaWM.focus_prev s)
     = MadaWM.ws s.
Proof.
  intros Hr. destruct (madawm_index_in_range s Hr) as (_ & _ & Hlt).
  destruct (MadaWMMore.focus_prev_ws s) as [Hw Hc].
  repeat split.
  - unfold MadaWM.ws_at at 1. rewrite Hw.
    now apply MadaWMFacts.nth_store.
  - intros i Hi. unfold MadaWM.ws_at at 1. rewrite Hw.
    apply MadaWMFacts.nth_store_other. auto.
  - exact Hc.
  - destruct (MadaWMMore.iter_focus_prev_ws s
                (List.length (MadaWM.ws_at s (MadaWM.cur_ws s))) Hlt)
      as [H _].
    rewrite H.
    pose proof (MadaWMMore.iter_rotate (MadaWM.ws_at s (MadaWM.cur_ws s)) [])
      as Hrot.
    cbn [app] in Hrot. rewrite Hrot, app_nil_r.
    unfold MadaWM.ws_at. apply MadaWMMore.store_same.
Qed.

Lemma madawm_focus_prev_rotates_witness :
  MadaWM.ws_at mada_three 0 = [103; 102; 101]
  /\ MadaWM.ws_at (MadaWM.focus_prev mada_three) 0 = [101; 103; 102].
Proof.
  split; [vm_compute; reflexivity|].
  destruct (madawm_focus_prev_rotates mada_three) as [H _].
  - unfold mada_three. mada_reachable.
  - change 0 with (MadaWM.cur_ws mada_three) at 1. rewrite H.
    vm_compute. reflexivity.
Defined.

(** X20.  A switch to a valid workspace of src/madawm.c leaves the lists
    alone, makes the target current, and leaves mapped every window of the
    target's list, unmapped every window that is only in the list that was
    current, and every other window as it was. *)
Theorem madawm_change_ws_maps_target_only
    (s : MadaWM.State) (idx : Z) (x : Window) :
  0 <= idx < MadaWM.WORKSPACES ->
  MadaWM.ws (MadaWM.change_ws idx s) = MadaWM.ws s
  /\ MadaWM.cur_ws (MadaWM.change_ws idx s) = idx
  /\ (In x (MadaWM.ws_at s idx) ->
      mapped (MadaWM.dpy (MadaWM.change_ws idx s)) x = true)
  /\ (~ In x (MadaWM.ws_at s idx) ->
      In x (MadaWM.ws_at s (MadaWM.cur_ws s)) ->
      mapped (MadaWM.dpy (MadaWM.change_ws idx s)) x = false)
  /\ (~ In x (MadaWM.ws_at s idx) ->
      ~ In x (MadaWM.ws_at s (MadaWM.cur_ws s)) ->
      mapped (MadaWM.dpy (MadaWM.change_ws idx s)) x
      = mapped (MadaWM.dpy s) x).
Proof.
  intros Hidx. split; [apply MadaWMFacts.change_ws_ws|].
  unfold MadaWM.change_ws.
  replace (idx <? 0) with false by (symmetry; apply Z.ltb_ge; lia).
  replace (idx >=? MadaWM.WORKSPACES) with false
    by (symmetry; rewrite Z.geb_leb; apply Z.leb_gt; lia).
  cbn [orb]. rewrite MadaWMFacts.mada_arrange_cur_ws.
  split; [reflexivity|].
  pose proof (MadaWMFacts.unmap_all_framed
                (MadaWM.ws_at s (MadaWM.cur_ws s)) s s
                (MadaWMFacts.mada_framed_refl s)) as Hfr.
  rewrite MadaWMMore.mada_mapped_X || rewrite MadaWMMore.mada_arrange_mapped.
  cbn [MadaWM.cur_ws MadaWM.with_cur_ws].
  assert (Hl : MadaWM.ws_at
                 (MadaWM.with_cur_ws idx
                    (fold_left (fun st c => MadaWM.X (XUnmapWindow c) st)
                       (MadaWM.ws_at s (MadaWM.cur_ws s)) s)) idx
               = MadaWM.ws_at s idx).
  { apply MadaWMMore.ws_at_ext. cbn [MadaWM.ws MadaWM.with_cur_ws].
    apply (MadaWMMore.mada_framed_ws _ _ Hfr). }
  rewrite Hl.
  change (mapped (MadaWM.dpy (MadaWM.with_cur_ws idx ?t)) x)
    with (mapped (MadaWM.dpy t) x).
  rewrite MadaWMMore.unmap_all_mapped.
  repeat split.
  - intros H. apply MadaWMMore.existsb_In in H. now rewrite H.
  - intros Hn Hc.
    destruct (existsb (Z.eqb x) (MadaWM.ws_at s idx)) eqn:E;
      [apply MadaWMMore.existsb_In in E; contradiction|].
    apply MadaWMMore.existsb_In in Hc. now rewrite Hc.
  - intros Hn Hc.
    destruct (existsb (Z.eqb x) (MadaWM.ws_at s idx)) eqn:E;
      [apply MadaWMMore.existsb_In in E; contradiction|].
    destruct (existsb (Z.eqb x) (MadaWM.ws_at s (MadaWM.cur_ws s))) eqn:E';
      [apply MadaWMMore.existsb_In in E'; contradiction|reflexivity].
Qed.

Lemma madawm_change_ws_maps_target_only_witness :
  mapped (MadaWM.dpy (MadaWM.change_ws 0 mada_split)) 101 = true
  /\ mapped (MadaWM.dpy (MadaWM.change_ws 0 mada_split)) 102 = false.
Proof.
  split.
  - refine (proj1 (proj2 (proj2 (madawm_change_ws_maps_target_only
                                   mada_split 0 101 _))) _).
    + unfold MadaWM.WORKSPACES. lia.
    + vm_compute. tauto.
  - refine (proj1 (proj2 (proj2 (proj2 (madawm_change_ws_maps_target_only
                                          mada_split 0 102 _)))) _ _).
    + unfold MadaWM.WORKSPACES. lia.
    + vm_compute. intros [F|F]; [discriminate|exact F].
    + vm_compute. tauto.
Defined.

(** X21.  For a window whose two hints are both set, [allowed_window] of
    src/madawm.c does not fault and answers 1 exactly when the class or the
    instance name equals an entry of the list up to the case of its
    letters; otherwise it answers 0. *)
Theorem madawm_allowed_window_up_to_case
    (d : Display) (w0 : Window) (n c : string) :
  class_hint d w0 = Some (hint (Some n) (Some c)) ->
  ReadmeObs.nul_free n -> ReadmeObs.nul_free c ->
  (MadaWM.allowed_window d w0 = Ret 1
   <-> exists p, In p MadaWM.allowed_classes
                 /\ (ReadmeObs.lower c = ReadmeObs.lower p
                     \/ ReadmeObs.lower n = ReadmeObs.lower p))
  /\ (MadaWM.allowed_window d w0 = Ret 1 \/ MadaWM.allowed_window d w0 = Ret 0).
Proof.
  intros Hh Hn Hc.
  assert (Hcl : forall p, In p MadaWM.allowed_classes -> ReadmeObs.nul_free p).
  { apply Forall_forall. repeat constructor; nul_free_solve. }
  unfold MadaWM.allowed_window. rewrite Hh. unfold hint. cbn [is_set res_class].
  rewrite MadaWMMore.allowed_loop_existsb. cbn [bind].
  match goal with |- context [existsb ?f MadaWM.allowed_classes] =>
    destruct (existsb f MadaWM.allowed_classes) eqn:E end.
  - split; [|now left]. split; [intros _|reflexivity].
    apply existsb_exists in E. destruct E as (p & Hin & Hp).
    exists p. split; [exact Hin|].
    apply orb_true_iff in Hp.
    destruct Hp as [Hp|Hp]; apply Z.eqb_eq in Hp; [left|right];
      apply ReadmeMore.strcasecmp_zero; auto.
  - split; [|now right]. split; [discriminate|].
    intros (p & Hin & Hp). exfalso.
    assert (existsb
              (fun p => (strcasecmp c p =? 0) || (strcasecmp n p =? 0))
              MadaWM.allowed_classes = true) as Ht.
    { apply existsb_exists. exists p. split; [exact Hin|].
      apply orb_true_iff.
      destruct Hp as [Hp|Hp]; [left|right]; apply Z.eqb_eq;
        now apply ReadmeMore.strcasecmp_lower. }
    congruence.
Qed.

Lemma madawm_allowed_window_up_to_case_witness :
  MadaWM.allowed_window
    (display (Some (hint (Some "Navigator"%string) (Some "FIREFOX"%string))))
    201
  = Ret 1.
Proof.
  refine (proj2 (proj1 (madawm_allowed_window_up_to_case
                          (display (Some (hint (Some "Navigator"%string)
                                               (Some "FIREFOX"%string))))
                          201 "Navigator"%string "FIREFOX"%string _ _ _)) _).
  - reflexivity.
  - nul_free_solve.
  - nul_free_solve.
  - exists "firefox"%string. split; [vm_compute; tauto|]. left. reflexivity.
Defined.

(** X22.  An accepted map request of src/madawm.c puts the window at the
    head of the list of the current workspace, whatever its class; the
    current workspace and the other lists do not change, and every window
    of the current list is mapped afterwards. *)
Theorem madawm_maprequest_joins_current
    (s : MadaWM.State) (w0 : Window) (ok : Z) :
  MadaWMReach.Reachable s ->
  MadaWM.allowed_window (MadaWM.dpy s) w0 = Ret ok -> ok <> 0 ->
  exists s',
    MadaWM.dispatch (MapRequest w0) s = Ret s'
    /\ MadaWM.cur_ws s' = MadaWM.cur_ws s
    /\ MadaWM.ws_at s' (MadaWM.cur_ws s)
       = w0 :: MadaWM.ws_at s (MadaWM.cur_ws s)
    /\ (forall i, Z.to_nat i <> Z.to_nat (MadaWM.cur_ws s) ->
                  MadaWM.ws_at s' i = MadaWM.ws_at s i)
    /\ (forall x, In x (MadaWM.ws_at s' (MadaWM.cur_ws s)) ->
                  mapped (MadaWM.dpy s') x = true).
Proof.
  intros Hr Ha Hok. destruct (madawm_index_in_range s Hr) as (_ & _ & Hlt).
  cbn [MadaWM.dispatch]. unfold MadaWM.handle_maprequest. rewrite Ha.
  cbn [bind]. apply Z.eqb_neq in Hok. rewrite Hok.
  eexists. split; [reflexivity|].
  rewrite MadaWMFacts.mada_arrange_cur_ws, !MadaWMFacts.ws_at_arrange.
  assert (Hhead : MadaWM.ws_at
                    (MadaWM.X (XSelectInput w0
                                 (Z.lor StructureNotifyMask PropertyChangeMask))
                       (MadaWM.add_client w0 s)) (MadaWM.cur_ws s)
                  = w0 :: MadaWM.ws_at s (MadaWM.cur_ws s))
    by (apply (MadaWMFacts.add_client_head s w0 Hlt)).
  repeat split.
  - exact Hhead.
  - intros i Hi. rewrite MadaWMFacts.ws_at_arrange.
    now apply (MadaWMFacts.add_client_elsewhere s w0 i).
  - intros x Hx. rewrite MadaWMMore.mada_arrange_mapped.
    change (MadaWM.cur_ws (MadaWM.X _ (MadaWM.add_client w0 s)))
      with (MadaWM.cur_ws s).
    rewrite Hhead in *. apply MadaWMMore.existsb_In in Hx. now rewrite Hx.
Qed.

Lemma madawm_maprequest_joins_current_witness :
  exists s', MadaWM.dispatch (MapRequest 104) mada_split = Ret s'
             /\ MadaWM.ws_at s' 1 = [104; 103; 102].
Proof.
  destruct (madawm_maprequest_joins_current mada_split 104 1)
    as (s' & Hd & _ & Hw & _).
  - unfold mada_split. mada_reachable.
  - vm_compute. reflexivity.
  - discriminate.
  - exists s'. split; [exact Hd|].
    change 1 with (MadaWM.cur_ws mada_split) at 1. rewrite Hw.
    vm_compute. reflexivity.
Defined.

(** X23.  [arrange] of src/madawm.c with N >= 1 windows on a screen W
    pixels wide gives window number k, in list order, the column at
    [k * (W / N)] of width [W / N]; the columns cover [N * (W / N)] pixels
    and leave the last [W mod N] pixels of the screen, fewer than N,
    untiled. *)
Theorem madawm_uncovered_strip (s : MadaWM.State) :
  MadaWM.ws_at s (MadaWM.cur_ws s) <> [] ->
  0 <= MadaWM.screen_w s ->
  MadaWMModel.moves (MadaWM.arrange s)
    = MadaWMModel.moves s ++
      map (MadaWMReach.column_request (MadaWM.screen_h s)
             (MadaWM.screen_w s
              / Z.of_nat (List.length (MadaWM.ws_at s (MadaWM.cur_ws s)))))
          (combine (seq 0 (List.length (MadaWM.ws_at s (MadaWM.cur_ws s))))
                   (MadaWM.ws_at s (MadaWM.cur_ws s)))
  /\ Z.of_nat (List.length (MadaWM.ws_at s (MadaWM.cur_ws s)))
     * (MadaWM.screen_w s
        / Z.of_nat (List.length (MadaWM.ws_at s (MadaWM.cur_ws s))))
     + MadaWM.screen_w s
       mod Z.of_nat (List.length (MadaWM.ws_at s (MadaWM.cur_ws s)))
     = MadaWM.screen_w s
  /\ 0 <= MadaWM.screen_w s
          mod Z.of_nat (List.length (MadaWM.ws_at s (MadaWM.cur_ws s)))
     < Z.of_nat (List.length (MadaWM.ws_at s (MadaWM.cur_ws s))).
Proof.
  intros Hl HW.
  assert (HN : 0 < Z.of_nat (List.length (MadaWM.ws_at s (MadaWM.cur_ws s)))).
  { destruct (MadaWM.ws_at s (MadaWM.cur_ws s)); [congruence|cbn; lia]. }
  repeat split.
  - rewrite MadaWMFacts.arrange_moves. f_equal.
    rewrite Z.quot_div_nonneg by lia.
    apply (MadaWMMore.equal_columns_map _ _ _ 0).
  - symmetry. apply Z.div_mod. lia.
  - apply Z.mod_pos_bound. exact HN.
  - apply Z.mod_pos_bound. exact HN.
Qed.

Lemma madawm_uncovered_strip_witness :
  3 * (1921 / 3) + 1921 mod 3 = MadaWM.screen_w mada_three.
Proof.
  refine (proj1 (proj2 (madawm_uncovered_strip mada_three _ _))).
  - vm_compute. discriminate.
  - vm_compute. discriminate.
Defined.

(** X24.  src/madawm.c never asks for the input focus: over any run the
    focus on the display is the one the run started with and no
    [XSetInputFocus] is added to the requests. *)
Theorem madawm_never_sets_focus
    (evs : list XEvent) (s s' : MadaWM.State) :
  MadaWM.run evs s = Ret s' ->
  input_focus (MadaWM.dpy s') = input_focus (MadaWM.dpy s)
  /\ filter is_focus (requests (MadaWM.dpy s'))
     = filter is_focus (requests (MadaWM.dpy s)).
Proof. intros H. exact (MadaWMMore.run_focus evs s s' H). Qed.

Lemma madawm_never_sets_focus_witness :
  input_focus (MadaWM.dpy mada_split) = PointerRoot.
Proof.
  refine (proj1 (madawm_never_sets_focus
                   [MapRequest 101; KeyPress XK_2 Mod4Mask; MapRequest 102;
                    MapRequest 103] (mada kitty) mada_split _)).
  vm_compute. reflexivity.
Defined.

(** ** Key grabs *)

(** X25.  The README program reacts to no key it has not grabbed: a key
    press whose keysym and modifiers (Caps Lock and Num Lock left out) are
    not among the grabs of [grab_keys] leaves the state unchanged. *)
Theorem readme_ungrabbed_key_is_ignored
    (s : Readme.State) (k : KeySym) (st : Z) :
  ~ In (Grabs.XGrabKey k (Z.land st (Z.lnot (Z.lor LockMask Mod2Mask))))
       Grabs.readme_grab_keys ->
  Readme.dispatch (KeyPress k st) s = Ret s.
Proof.
  intros H. cbn [Readme.dispatch]. cbv zeta.
  destruct (Z.eqb_spec (Z.land st (Z.lnot (Z.lor LockMask Mod2Mask))) Mod4Mask)
    as [E|E].
  - rewrite E in H.
    repeat match goal with
           | |- context [?a =? ?b] =>
               destruct (Z.eqb_spec a b);
               [subst; exfalso; apply H; cbn; tauto|]
           end.
    reflexivity.
  - destruct (Z.eqb_spec (Z.land st (Z.lnot (Z.lor LockMask Mod2Mask)))
                (Z.lor Mod4Mask ShiftMask)) as [E'|E']; [|reflexivity].
    rewrite E' in H.
    repeat match goal with
           | |- context [?a =? ?b] =>
               destruct (Z.eqb_spec a b);
               [subst; exfalso; apply H; cbn; tauto|]
           end.
    reflexivity.
Qed.

Lemma readme_ungrabbed_key_is_ignored_witness :
  Readme.dispatch (KeyPress XK_3 Mod4Mask) fixed_two = Ret fixed_two.
Proof.
  apply readme_ungrabbed_key_is_ignored.
  vm_compute. intuition discriminate.
Defined.

(** X26.  src/madawm.c reacts to no keysym it has not grabbed: a key press
    whose keysym is not among the grabs of [grab_keys] leaves the state
    unchanged. *)
Theorem madawm_ungrabbed_key_is_ignored
    (s : MadaWM.State) (k : KeySym) (st : Z) :
  ~ In k (map Grabs.grabbed_keysym Grabs.mada_grab_keys) ->
  MadaWM.dispatch (KeyPress k st) s = Ret s.
Proof.
  intros H. cbn [MadaWM.dispatch].
  repeat match goal with
         | |- context [?a =? ?b] =>
             destruct (Z.eqb_spec a b);
             [subst; exfalso; apply H; cbn; tauto|]
         end.
  reflexivity.
Qed.

Lemma madawm_ungrabbed_key_is_ignored_witness :
  MadaWM.dispatch (KeyPress XK_c Mod4Mask) mada_two = Ret mada_two.
Proof.
  apply madawm_ungrabbed_key_is_ignored.
  vm_compute. intuition discriminate.
Defined.

(** ** The policy filter *)


